(** * Subword vocabulary pipeline: [BPEPreprocess.py] and [BPE_preprocess.py]

    A shallow embedding of the two preprocessing scripts and the proofs of
    the properties their specification states about them.

    Conventions of the embedding.
    - A Python [str] is a list of characters; a character is a code point
      below 256, carried by [ascii].
    - A text file is the list of the lines its iteration yields (each with
      its line terminator); a file written line by line holds the written
      lines.
    - Exceptions are values of [exn]; a call that raises keeps the effects
      it had before raising. *)

From Stdlib Require Import ZArith List Ascii String Bool Lia.
From Stdlib Require QArith.
From stdpp Require Import base option list strings pretty gmap.

Open Scope Z_scope.

Abbreviation pystr := (list ascii).

(** A string literal of the source. *)
Definition lit (s : string) : pystr := list_ascii_of_string s.

(** ** Python's text primitives *)

(** [str.isspace] on one character, for the code points below 256: the
    ASCII controls 9-13 and 28-31, the space, NEL (0x85) and the no-break
    space (0xA0). The regular expression class [\s] of a [str] pattern and
    the argument-less [str.split] and [str.strip] all use this test. *)
Definition isspace (c : ascii) : bool :=
  let n := N_of_ascii c in
  ((9 <=? n)%N && (n <=? 13)%N) || ((28 <=? n)%N && (n <=? 32)%N)
  || (n =? 133)%N || (n =? 160)%N.

(** [s.lstrip()] *)
Fixpoint str_lstrip (s : pystr) : pystr :=
  match s with
  | [] => []
  | c :: s' => if isspace c then str_lstrip s' else s
  end.

(** [s.rstrip()] *)
Definition str_rstrip (s : pystr) : pystr := rev (str_lstrip (rev s)).

(** [s.strip()] *)
Definition str_strip (s : pystr) : pystr := str_rstrip (str_lstrip s).

(** The token, if any, that the scan of [str.split] has accumulated
    (in reverse) when it meets whitespace or the end of the string. *)
Definition flush (cur : pystr) : list pystr :=
  match cur with
  | [] => []
  | _ => [rev cur]
  end.

Fixpoint split_go (cur : pystr) (s : pystr) : list pystr :=
  match s with
  | [] => flush cur
  | c :: s' =>
      if isspace c then flush cur ++ split_go [] s'
      else split_go (c :: cur) s'
  end.

(** [s.split()]: the maximal whitespace-free runs of [s], left to right. *)
Definition str_split (s : pystr) : list pystr := split_go [] s.

(** [sep.join(l)] *)
Fixpoint str_join (sep : pystr) (l : list pystr) : pystr :=
  match l with
  | [] => []
  | [t] => t
  | t :: ts => t ++ sep ++ str_join sep ts
  end.

(** [re.compile("\s+").sub(" ", s)]: every maximal run of whitespace is
    replaced by one space. [in_run] tells that the previous character was
    whitespace, whose replacement has been emitted already. *)
Fixpoint sub_go (in_run : bool) (s : pystr) : pystr :=
  match s with
  | [] => []
  | c :: s' =>
      if isspace c then
        (if in_run then sub_go true s' else " "%char :: sub_go true s')
      else c :: sub_go false s'
  end.

Definition SPACE_NORMALIZER_sub (s : pystr) : pystr := sub_go false s.

(** [word_tokenize], the same text in both scripts. *)
Definition word_tokenize (line : pystr) : list pystr :=
  let line := SPACE_NORMALIZER_sub line in
  let line := str_strip line in
  str_split line.

(** The tokenization rule in the specification's own words: split the
    collapsed and trimmed line at every occurrence of the single separator.
    A line that is empty after trimming has no token. *)
Fixpoint fields_go (cur : pystr) (s : pystr) : list pystr :=
  match s with
  | [] => [rev cur]
  | c :: s' =>
      if Ascii.eqb c " " then rev cur :: fields_go [] s'
      else fields_go (c :: cur) s'
  end.

Definition split_on_separator (s : pystr) : list pystr :=
  match s with
  | [] => []
  | _ => fields_go [] s
  end.

Definition tokenize_rule (line : pystr) : list pystr :=
  split_on_separator (str_strip (SPACE_NORMALIZER_sub line)).

(** A token: not empty and free of whitespace. *)
Definition is_token (t : pystr) : Prop :=
  t ≠ [] ∧ Forall (λ c, isspace c = false) t.

Definition all_space (s : pystr) : Prop := Forall (λ c, isspace c = true) s.
Definition no_space (s : pystr) : Prop := Forall (λ c, isspace c = false) s.

(** [int(s)] for a field produced by [split]: an optional sign, then
    decimal digits in which single underscores may separate digits. Below
    code point 256 the decimal digits are the ASCII ones. The interpreter's
    limit on the number of digits is not modelled. *)
Definition digit_value (c : ascii) : option Z :=
  let n := N_of_ascii c in
  if ((48 <=? n)%N && (n <=? 57)%N)%bool then Some (Z.of_N n - 48) else None.

Fixpoint int_digits (acc : Z) (after_digit : bool) (s : pystr) : option Z :=
  match s with
  | [] => if after_digit then Some acc else None
  | c :: s' =>
      match digit_value c with
      | Some v => int_digits (10 * acc + v) true s'
      | None =>
          if (Ascii.eqb c "_" && after_digit)%bool
          then int_digits acc false s'
          else None
      end
  end.

Definition py_int (s : pystr) : option Z :=
  match s with
  | c :: s' =>
      if Ascii.eqb c "-" then Z.opp <$> int_digits 0 false s'
      else if Ascii.eqb c "+" then int_digits 0 false s'
      else int_digits 0 false s
  | [] => None
  end.

(** [needle in hay] *)
Fixpoint starts_with (needle hay : pystr) : bool :=
  match needle, hay with
  | [], _ => true
  | c :: n', d :: h' => Ascii.eqb c d && starts_with n' h'
  | _ :: _, [] => false
  end.

Fixpoint str_contains (hay needle : pystr) : bool :=
  starts_with needle hay ||
  match hay with
  | [] => false
  | _ :: h' => str_contains h' needle
  end.

(** The line terminator ["\n"]. *)
Definition NEWLINE : pystr := ["010"%char].

(** [posixpath.join(a, b)] *)
Definition os_path_join (a b : pystr) : pystr :=
  if starts_with (lit "/") b then b
  else match last a with
       | None => b
       | Some c => if Ascii.eqb c "/" then a ++ b else a ++ lit "/" ++ b
       end.

(** ** Exceptions, files and the state of a run *)

Inductive exn :=
  | FileNotFoundError (path : pystr)
  | UnicodeDecodeError (path : pystr)
      (** a pickle file opened in text mode: its first byte, the protocol
          opcode 0x80, starts no UTF-8 sequence *)
  | ValueError_unpack (expected got : nat)
      (** [word, freq = fields] with a wrong number of fields *)
  | ValueError_int (literal : pystr)
      (** [int(freq)] on a field that is no integer literal *)
  | ZeroDivisionError
  | ContractViolation (what : pystr).
      (** a Dictionary method rejected after [finalize] *)

(** [str(e)]: the message the exception carries. (From Python 3.14 on the
    too-many-values message also reports the number of values; the literal
    of the [int] message is rendered between quotes.) *)
Definition str_exn (e : exn) : pystr :=
  match e with
  | FileNotFoundError path =>
      lit "[Errno 2] No such file or directory: '" ++ path ++ lit "'"
  | UnicodeDecodeError _ =>
      lit "'utf-8' codec can't decode byte 0x80 in position 0: invalid start byte"
  | ValueError_unpack expected got =>
      if (got <? expected)%nat then
        lit "not enough values to unpack (expected " ++ lit (pretty expected)
        ++ lit ", got " ++ lit (pretty got) ++ lit ")"
      else
        lit "too many values to unpack (expected " ++ lit (pretty expected) ++ lit ")"
  | ValueError_int literal =>
      lit "invalid literal for int() with base 10: '" ++ literal ++ lit "'"
  | ZeroDivisionError => lit "float division by zero"
  | ContractViolation what => what
  end.

Inductive result (A : Type) :=
  | Ok (a : A)
  | Raise (e : exn).
Arguments Ok {A} a.
Arguments Raise {A} e.

(** A file of the store: a text file, or the file [pickle.dump] wrote for a
    list of integer arrays. The byte encoding of pickle is not modelled:
    the store keeps the dumped object, which is what [pickle.load] returns
    for an unmodified file. *)
Inductive file :=
  | Text (lines : list pystr)
  | Pickle (obj : list (list Z)).

(** The calls a run makes on Dictionary objects and the summary it logs.
    A Dictionary object is named by the rank of its construction. *)
Inductive event :=
  | Call_Dictionary (d : nat)
  | Call_add_word (d : nat) (word : pystr)
  | Call_finalize (d : nat) (threshold num_words : Z)
  | Call_save (d : nat) (path : pystr)
  | Call_make_binary_dataset (d : nat) (input_file output_file : pystr)
  | Logging_info_built (input_file : pystr) (nsent ntok : Z) (percent : QArith_base.Q).

Record state := State {
  files : gmap (list ascii) file;
  next_oid : nat;      (** number of Dictionary objects constructed so far *)
}.

(** A computation: the result or the exception, the state it leaves, and
    the events it emitted, in order. *)
Definition M (A : Type) : Type := state → result A * state * list event.

Global Instance M_ret : MRet M := λ A a st, (Ok a, st, []).

Global Instance M_bind : MBind M := λ A B k m st,
  match m st with
  | (Ok a, st', evs) =>
      let '(r, st'', evs') := k a st' in (r, st'', evs ++ evs')
  | (Raise e, st', evs) => (Raise e, st', evs)
  end.

Definition raise {A} (e : exn) : M A := λ st, (Raise e, st, []).
Definition emit (ev : event) : M unit := λ st, (Ok tt, st, [ev]).

Definition lift_result {A} (r : result A) : M A := λ st, (r, st, []).

(** [for x in l: body(x)] *)
Fixpoint for_each {A} (l : list A) (body : A → M unit) : M unit :=
  match l with
  | [] => mret tt
  | x :: l' => body x ;; for_each l' body
  end.

(** [for x in l: acc = body(acc, x)] *)
Fixpoint for_fold {A B} (l : list A) (body : B → A → M B) (acc : B) : M B :=
  match l with
  | [] => mret acc
  | x :: l' => acc' ← body acc x; for_fold l' body acc'
  end.

(** [open(path, 'r')] followed by the iteration over the lines. *)
Definition read_lines (path : pystr) : M (list pystr) := λ st,
  match files st !! path with
  | Some (Text lines) => (Ok lines, st, [])
  | Some (Pickle _) => (Raise (UnicodeDecodeError path), st, [])
  | None => (Raise (FileNotFoundError path), st, [])
  end.

(** [open(path, 'w')] and the writes of [lines]. The store accepts every
    path: directories and permissions are not modelled. *)
Definition write_lines (path : pystr) (lines : list pystr) : M unit := λ st,
  (Ok tt, State (<[path := Text lines]> (files st)) (next_oid st), []).

(** [pickle.dump(obj, open(path, 'wb'))] *)
Definition pickle_dump (obj : list (list Z)) (path : pystr) : M unit := λ st,
  (Ok tt, State (<[path := Pickle obj]> (files st)) (next_oid st), []).

(** [pickle.load(open(path, 'rb'))] on a file of the store. *)
Definition pickle_load (f : option file) : option (list (list Z)) :=
  match f with
  | Some (Pickle obj) => Some obj
  | _ => None
  end.

(** ** The Vocabulary Dictionary ([seq2seq.data.dictionary.Dictionary]) *)

(** Modelled from the spec: the class [Dictionary] is imported by the
    scripts and is not among their sources. The record follows section 3
    of the specification: the ordered symbols (position = id), the parallel
    counts, the reverse index, and the reserved special symbols. [oid] is
    the identity of the object; [finalized] records that [finalize] ran.
    The attributes [unk_word], [unk_idx] and [eos_idx] are those the
    scripts and [binarize] read. *)
Record Dictionary := {
  oid : nat;
  symbols : list pystr;
  counts : list Z;
  index : gmap (list ascii) Z;
  nspecial : nat;
  unk_word : pystr;
  unk_idx : Z;
  eos_idx : Z;
  finalized : bool;
}.

(** Modelled from the spec: the count of a special symbol, "larger than
    any real symbol count"; [finalize] never reads it, since it keeps the
    special symbols unconditionally. *)
Definition special_count : Z := 2 ^ 63 - 1.

Definition index_of (syms : list pystr) : gmap (list ascii) Z :=
  list_to_map (zip syms (Z.of_nat <$> seq 0 (length syms))).

(** Modelled from the spec: [Dictionary()], "created empty with only special
    symbols populated": pad, unknown, begin-of-sequence and end-of-sequence,
    in this order. The specification leaves the order and the literal
    strings to the implementation; these are the customary ones. *)
Definition Dictionary_new (id : nat) : Dictionary :=
  let specials := [lit "<pad>"; lit "<unk>"; lit "<s>"; lit "</s>"] in
  {| oid := id;
     symbols := specials;
     counts := replicate 4 special_count;
     index := index_of specials;
     nspecial := 4;
     unk_word := lit "<unk>";
     unk_idx := 1;
     eos_idx := 3;
     finalized := false |}.

(** Modelled from the spec: [lookup(symbol) -> id] "returns the
    unknown-symbol id if symbol is absent". *)
Definition Dictionary_lookup (d : Dictionary) (symbol : pystr) : Z :=
  default (unk_idx d) (index d !! symbol).

(** Modelled from the spec: [add_word(symbol)] "increments
    counts[index[symbol]] if present, else appends symbol at the next free
    id with count 1 and updates index"; after [finalize] it is rejected. *)
Definition Dictionary_add_word (d : Dictionary) (symbol : pystr) : result Dictionary :=
  if finalized d then Raise (ContractViolation (lit "add_word called after finalize"))
  else match index d !! symbol with
       | Some i =>
           Ok {| oid := oid d; symbols := symbols d;
                 counts := alter (Z.add 1) (Z.to_nat i) (counts d);
                 index := index d; nspecial := nspecial d;
                 unk_word := unk_word d; unk_idx := unk_idx d;
                 eos_idx := eos_idx d; finalized := false |}
       | None =>
           Ok {| oid := oid d; symbols := symbols d ++ [symbol];
                 counts := counts d ++ [1];
                 index := <[symbol := Z.of_nat (length (symbols d))]> (index d);
                 nspecial := nspecial d;
                 unk_word := unk_word d; unk_idx := unk_idx d;
                 eos_idx := eos_idx d; finalized := false |}
       end.

(** Insertion of [x] after the entries whose count is at least its own:
    inserting the entries in their original order sorts them by count
    descending, ties in insertion order. *)
Fixpoint insert_by_count (x : pystr * Z) (l : list (pystr * Z)) : list (pystr * Z) :=
  match l with
  | [] => [x]
  | y :: l' => if x.2 <=? y.2 then y :: insert_by_count x l' else x :: l
  end.

Definition sort_by_count (l : list (pystr * Z)) : list (pystr * Z) :=
  foldl (λ acc x, insert_by_count x acc) [] l.

(** Modelled from the spec: [finalize(threshold, max_size)], the two-stage
    prune of section 4.2. The non-special symbols are sorted by (count
    descending, insertion order ascending); the prefix allowed by the cap
    is retained (no cap when [max_size] is negative; the cap counts the
    special symbols, which are always retained); the symbols below
    [threshold] are dropped; ids are reassigned densely after the special
    ones. A second [finalize] is rejected. *)
Definition Dictionary_finalize (d : Dictionary) (threshold max_size : Z)
  : result Dictionary :=
  if finalized d then Raise (ContractViolation (lit "finalize called twice"))
  else
    let k := nspecial d in
    let entries := sort_by_count (drop k (zip (symbols d) (counts d))) in
    let capped :=
      if max_size <? 0 then entries
      else take (Z.to_nat (max_size - Z.of_nat k)) entries in
    let kept := filter (λ e, threshold ≤ e.2) capped in
    let syms := take k (symbols d) ++ kept.*1 in
    Ok {| oid := oid d; symbols := syms;
          counts := take k (counts d) ++ kept.*2;
          index := index_of syms; nspecial := k;
          unk_word := unk_word d; unk_idx := unk_idx d;
          eos_idx := eos_idx d; finalized := true |}.

(** Modelled from the spec: the persistence file, "one entry per line in
    id order starting immediately after special symbols":
    [<symbol> <frequency>]. *)
Definition Dictionary_save_lines (d : Dictionary) : list pystr :=
  (λ e : pystr * Z, e.1 ++ lit " " ++ lit (pretty e.2) ++ NEWLINE) <$> drop (nspecial d) (zip (symbols d) (counts d)).

(** Modelled from the spec: [binarize(text, tokenizer, append_eos,
    consumer)], section 4.4: "one integer-id sequence per input line using
    the shared tokenization rule, looking up each token via lookup, and
    appending the end-of-sequence id if append_eos is set"; the consumer is
    the per-token hook, called with each token and its resolved id. The
    hook acts on the accumulator [acc] it closes over. *)
Definition Dictionary_binarize {S} (d : Dictionary) (text : pystr)
    (tokenizer : pystr → list pystr) (append_eos : bool)
    (consumer : pystr → Z → S → S) (acc : S) : list Z * S :=
  let tokens := tokenizer text in
  ((Dictionary_lookup d <$> tokens) ++ (if append_eos then [eos_idx d] else []),
   foldl (λ a token, consumer token (Dictionary_lookup d token) a) acc tokens).

(** The method calls as the scripts make them: each records its event. *)
Definition new_Dictionary : M Dictionary := λ st,
  (Ok (Dictionary_new (next_oid st)),
   State (files st) (S (next_oid st)),
   [Call_Dictionary (next_oid st)]).

Definition add_word (d : Dictionary) (symbol : pystr) : M Dictionary :=
  emit (Call_add_word (oid d) symbol) ;;
  lift_result (Dictionary_add_word d symbol).

Definition finalize (d : Dictionary) (threshold num_words : Z) : M Dictionary :=
  emit (Call_finalize (oid d) threshold num_words) ;;
  lift_result (Dictionary_finalize d threshold num_words).

Definition save (d : Dictionary) (path : pystr) : M unit :=
  emit (Call_save (oid d) path) ;;
  write_lines path (Dictionary_save_lines d).

(** ** The functions of the scripts *)

(** [build_bpe_dictionary], the same text in both scripts. *)
Definition build_bpe_dictionary (tokenized_file : pystr) : M Dictionary :=
  dictionary ← new_Dictionary;
  lines ← read_lines tokenized_file;
  for_fold lines
    (λ dictionary line,
       for_fold (str_split (str_strip line)) add_word dictionary)
    dictionary.

(** [collections.Counter]: [update([word])] and [sum(values())]. *)
Definition Counter_get (c : gmap (list ascii) Z) (word : pystr) : Z :=
  default 0 (c !! word).

Definition Counter_update1 (c : gmap (list ascii) Z) (word : pystr)
  : gmap (list ascii) Z :=
  <[word := Counter_get c word + 1]> c.

Definition Counter_total (c : gmap (list ascii) Z) : Z :=
  map_fold (λ _ n acc, n + acc) 0 c.

(** [unk_consumer], the closure of [make_binary_dataset] over the
    dictionary and [unk_counter]. *)
Definition unk_consumer (dictionary : Dictionary) (word : pystr) (idx : Z)
    (unk_counter : gmap (list ascii) Z) : gmap (list ascii) Z :=
  if (idx =? unk_idx dictionary) && negb (bool_decide (word = unk_word dictionary))
  then Counter_update1 unk_counter word
  else unk_counter.

(** The variables of the loop of [make_binary_dataset]. *)
Record bin_state := BinState {
  nsent : Z;
  ntok : Z;
  unk_counter : gmap (list ascii) Z;
  tokens_list : list (list Z);
}.

Definition bin_init : bin_state := BinState 0 0 ∅ [].

(** One iteration of [for line in inf]. *)
Definition bin_step (dictionary : Dictionary) (append_eos : bool)
    (st : bin_state) (line : pystr) : bin_state :=
  let '(tokens, counter) :=
    Dictionary_binarize dictionary (str_strip line) word_tokenize append_eos
      (unk_consumer dictionary) (unk_counter st) in
  BinState (nsent st + 1) (ntok st + Z.of_nat (length tokens))
           counter (tokens_list st ++ [tokens]).

Definition bin_loop (dictionary : Dictionary) (append_eos : bool)
    (lines : list pystr) : bin_state :=
  foldl (bin_step dictionary append_eos) bin_init lines.

(** [100.0 * total / ntok]: true division raises on a zero divisor. The
    quotient is kept as an exact rational, which stands for the float. *)
Definition percent (total ntok : Z) : result QArith_base.Q :=
  if ntok =? 0 then Raise ZeroDivisionError
  else Ok (QArith_base.Qmake (100 * total * Z.sgn ntok) (Z.to_pos (Z.abs ntok))).

(** [make_binary_dataset], the same text in both scripts. [quiet] is the
    global [args.quiet]. The parameter [tokenize] is not used by the body,
    which passes [word_tokenize] to [binarize]. The first event marks the
    call. *)
Definition make_binary_dataset (quiet : bool) (input_file output_file : pystr)
    (dictionary : Dictionary) (tokenize : pystr → list pystr)
    (append_eos : bool) : M unit :=
  emit (Call_make_binary_dataset (oid dictionary) input_file output_file) ;;
  lines ← read_lines input_file;
  let st := bin_loop dictionary append_eos lines in
  pickle_dump (tokens_list st) output_file ;;
  if quiet then mret tt
  else
    pct ← lift_result (percent (Counter_total (unk_counter st)) (ntok st));
    emit (Logging_info_built input_file (nsent st) (ntok st) pct).

(** *** The Vocabulary Filter ([BPE_preprocess.py]) *)

(** The literal the filter writes for a low-frequency symbol. *)
Definition LOW_FREQUENCY_SENTINEL : pystr := lit "@@UNKNOWN@@".

(** [word, freq = line.strip().split()] and [int(freq)]. *)
Definition parse_vocab_line (line : pystr) : result (pystr * Z) :=
  match str_split (str_strip line) with
  | [word; freq] =>
      match py_int freq with
      | Some n => Ok (word, n)
      | None => Raise (ValueError_int freq)
      end
  | fields => Raise (ValueError_unpack 2 (length fields))
  end.

(** The loop [for line in vocab_file: ... vocab[word] = int(freq)]. *)
Fixpoint load_vocab (vocab : gmap (list ascii) Z) (lines : list pystr)
  : result (gmap (list ascii) Z) :=
  match lines with
  | [] => Ok vocab
  | line :: lines' =>
      match parse_vocab_line line with
      | Ok (word, freq) => load_vocab (<[word := freq]> vocab) lines'
      | Raise e => Raise e
      end
  end.

(** The body of [for word in bpe_line.split()]. *)
Definition filter_word (vocab : gmap (list ascii) Z) (threshold : Z)
    (word : pystr) : pystr :=
  if bool_decide (threshold ≤ default 0 (vocab !! word)) then word
  else LOW_FREQUENCY_SENTINEL.

(** The line written for the segmented line [bpe_line]. *)
Definition filter_line (vocab : gmap (list ascii) Z) (threshold : Z)
    (bpe_line : pystr) : pystr :=
  str_join (lit " ") (filter_word vocab threshold <$> str_split bpe_line)
  ++ NEWLINE.

(** [codecs.open(path, 'r')]: the file must exist. *)
Definition open_read (path : pystr) : M unit := λ st,
  match files st !! path with
  | Some _ => (Ok tt, st, [])
  | None => (Raise (FileNotFoundError path), st, [])
  end.

(** [apply_bpe_with_vocab_filter]. [bpe] is [bpe.process_line], the
    segmenter, a function of the line. The output file is opened, hence
    emptied, after the input file is opened and before its lines are read;
    the lines are written as they are produced, and none of the steps
    between two writes can raise. *)
Definition apply_bpe_with_vocab_filter (bpe : pystr → pystr)
    (input_file output_file vocab_path : pystr) (threshold : Z) : M unit :=
  vocab_lines ← read_lines vocab_path;
  vocab ← lift_result (load_vocab ∅ vocab_lines);
  open_read input_file ;;
  write_lines output_file [] ;;
  lines ← read_lines input_file;
  write_lines output_file
    ((λ line, filter_line vocab threshold (bpe (str_rstrip line))) <$> lines).

(** *** The command line *)

(** The namespace [get_args] returns. A language or a prefix that is not
    given is [None]. [vocab_threshold] is an option of [BPE_preprocess.py]
    only. *)
Record args := {
  source_lang : option pystr;
  target_lang : option pystr;
  train_prefix : option pystr;
  tiny_train_prefix : option pystr;
  valid_prefix : option pystr;
  test_prefix : option pystr;
  dest_dir : pystr;
  threshold_src : Z;
  num_words_src : Z;
  threshold_tgt : Z;
  num_words_tgt : Z;
  quiet : bool;
  vocab_threshold : Z;
  num_merge_operations : Z;
}.

(** [f'{lang}'] *)
Definition fmt (lang : option pystr) : pystr := default (lit "None") lang.

Definition SPLITS : list pystr :=
  [lit "train"; lit "valid"; lit "test"; lit "tiny_train"].

(** The steps of [main] that precede the dictionary loop segment the corpus
    with [subword_nmt] and write the segmented files. They construct no
    Dictionary and log no summary: they act on the files alone, and may
    raise. *)
Definition segmentation := args → gmap (list ascii) file →
                           result unit * gmap (list ascii) file.

Definition run_segmentation (seg : segmentation) (a : args) : M unit := λ st,
  let '(r, fs) := seg a (files st) in (r, State fs (next_oid st), []).

Module BPE_preprocess.

(** [apply_bpe_to_data] of [BPE_preprocess.py]. [bpe] is
    [bpe.process_line]. The output file is opened, hence emptied, after the
    input file is opened and before its lines are read. *)
Definition apply_bpe_to_data (bpe : pystr → pystr)
    (input_file output_file : pystr) : M unit :=
  open_read input_file ;;
  write_lines output_file [] ;;
  lines ← read_lines input_file;
  write_lines output_file ((λ line, bpe (str_rstrip line) ++ NEWLINE) <$> lines).

(** [main] of [BPE_preprocess.py]: steps 1 to 4 ([segment]), then step 5. *)
Definition main (segment : segmentation) (a : args) : M unit :=
  run_segmentation segment a ;;
  for_each [source_lang a; target_lang a] (λ lang,
    let dict_path := os_path_join (dest_dir a) (lit "dict." ++ fmt lang) in
    let bpe_train_data_path :=
      os_path_join (dest_dir a) (lit "train.bpe." ++ fmt lang) in
    bpe_dict ← build_bpe_dictionary bpe_train_data_path;
    bpe_dict ← finalize bpe_dict
      (if bool_decide (lang = source_lang a) then threshold_src a else threshold_tgt a)
      (if bool_decide (lang = source_lang a) then num_words_src a else num_words_tgt a);
    save bpe_dict dict_path ;;
    for_each SPLITS (λ split,
      let bpe_data_path :=
        os_path_join (dest_dir a) (split ++ lit ".bpe." ++ fmt lang) in
      let bin_data_path :=
        os_path_join (dest_dir a) (split ++ lit ".bin." ++ fmt lang) in
      make_binary_dataset (quiet a) bpe_data_path bin_data_path bpe_dict
        word_tokenize true)).

End BPE_preprocess.

Module BPEPreprocess.

(** [apply_bpe_to_data] of [BPEPreprocess.py], which first builds the
    segmenter from the file of merge rules: [BPE] stands for the
    constructor of [subword_nmt.apply_bpe.BPE], which reads the lines of
    the file and may reject them. *)
Definition apply_bpe_to_data (BPE : list pystr → result (pystr → pystr))
    (bpe_codes_path input_file output_file : pystr) : M unit :=
  codes ← read_lines bpe_codes_path;
  bpe ← lift_result (BPE codes);
  open_read input_file ;;
  write_lines output_file [] ;;
  lines ← read_lines input_file;
  write_lines output_file ((λ line, bpe (str_rstrip line) ++ NEWLINE) <$> lines).

(** [main] of [BPEPreprocess.py]: the learning and application of the
    merge rules ([segment]), then the dictionary loop. *)
Definition main (segment : segmentation) (a : args) : M unit :=
  run_segmentation segment a ;;
  for_each [source_lang a; target_lang a] (λ lang,
    let bpe_dict_path := os_path_join (dest_dir a) (lit "dict.bpe." ++ fmt lang) in
    bpe_dict ← build_bpe_dictionary
      (os_path_join (dest_dir a) (lit "train.bpe." ++ fmt lang));
    save bpe_dict bpe_dict_path ;;
    for_each SPLITS (λ split,
      let input_file :=
        os_path_join (dest_dir a) (split ++ lit ".bpe." ++ fmt lang) in
      let output_file :=
        os_path_join (dest_dir a) (split ++ lit ".bin." ++ fmt lang) in
      make_binary_dataset (quiet a) input_file output_file bpe_dict
        word_tokenize true)).

End BPEPreprocess.

(** ** The discipline of a Dictionary's life cycle *)

Inductive phase := Populating | Finalized.

(** A monitor of the calls: per Dictionary object, [add_word] is allowed
    while populating, [finalize] once, [make_binary_dataset] only after
    it. [None] is a violation. *)
Definition monitor_step (m : gmap nat phase) (ev : event) : option (gmap nat phase) :=
  match ev with
  | Call_Dictionary d =>
      match m !! d with
      | None => Some (<[d := Populating]> m)
      | Some _ => None
      end
  | Call_add_word d _ =>
      match m !! d with
      | Some Populating => Some m
      | _ => None
      end
  | Call_finalize d _ _ =>
      match m !! d with
      | Some Populating => Some (<[d := Finalized]> m)
      | _ => None
      end
  | Call_make_binary_dataset d _ _ =>
      match m !! d with
      | Some Finalized => Some m
      | _ => None
      end
  | Call_save _ _ | Logging_info_built _ _ _ _ => Some m
  end.

Fixpoint monitor (m : gmap nat phase) (tr : list event) : option (gmap nat phase) :=
  match tr with
  | [] => Some m
  | ev :: tr' =>
      match monitor_step m ev with
      | Some m' => monitor m' tr'
      | None => None
      end
  end.

Definition is_finalize (d : nat) (ev : event) : bool :=
  match ev with
  | Call_finalize d' _ _ => bool_decide (d' = d)
  | _ => false
  end.

Definition is_add_word (d : nat) (ev : event) : bool :=
  match ev with
  | Call_add_word d' _ => bool_decide (d' = d)
  | _ => false
  end.

Definition is_make_binary_dataset (ev : event) : bool :=
  match ev with
  | Call_make_binary_dataset _ _ _ => true
  | _ => false
  end.

(** The discipline, on the trace of a run: whenever a dictionary is handed
    to [make_binary_dataset], [finalize] has been called on it before,
    exactly once in the whole run, and every [add_word] on it precedes
    that call. *)
Definition finalize_discipline (tr : list event) : Prop :=
  ∀ pre post d input_file output_file,
    tr = pre ++ Call_make_binary_dataset d input_file output_file :: post →
    ∃ tr1 tr2 threshold num_words,
      pre = tr1 ++ Call_finalize d threshold num_words :: tr2 ∧
      Forall (λ ev, is_finalize d ev = false) (tr1 ++ tr2 ++ post) ∧
      Forall (λ ev, is_add_word d ev = false) (tr2 ++ post).

(** The trace and the final state of a computation. *)
Definition trace {A} (c : M A) (st : state) : list event := (c st).2.
Definition final {A} (c : M A) (st : state) : state := (c st).1.2.
Definition outcome {A} (c : M A) (st : state) : result A := (c st).1.1.

(** A line of the vocabulary listing is well formed when it has two fields
    of which the second is an integer. *)
Definition well_formed_vocab_line (line : pystr) : bool :=
  match str_split (str_strip line) with
  | [_; freq] => bool_decide (is_Some (py_int freq))
  | _ => false
  end.

(** The result of a call names the place of a malformed line: it is an
    exception whose message holds the path of the listing and the number of
    the line. *)
Definition names_place (r : result unit) (path : pystr) (lineno : nat) : Prop :=
  ∃ e, r = Raise e ∧
       str_contains (str_exn e) path = true ∧
       str_contains (str_exn e) (lit (pretty lineno)) = true.

(** The integer sequence of a line: the ids of its tokens, then the
    end-of-sequence id when [append_eos] is set. *)
Definition binarized_line (d : Dictionary) (append_eos : bool) (line : pystr)
  : list Z :=
  (Dictionary_lookup d <$> word_tokenize line)
  ++ (if append_eos then [eos_idx d] else []).

(** The token is replaced by the unknown id without being the unknown
    symbol itself. *)
Definition unk_substituted (d : Dictionary) (token : pystr) : Prop :=
  Dictionary_lookup d token = unk_idx d ∧ token ≠ unk_word d.

Global Instance unk_substituted_dec d token : Decision (unk_substituted d token).
Proof. unfold unk_substituted. apply _. Defined.

(** The tokens of a file, in order. *)
Definition file_tokens (lines : list pystr) : list pystr :=
  concat (word_tokenize <$> lines).

(** The monitor state knows no object that is still to be constructed. *)
Definition fresh (m : gmap nat phase) (st : state) : Prop :=
  ∀ d, (next_oid st ≤ d)%nat → m !! d = None.

(** From the state [st] and the monitor state [m], the monitor accepts all
    the events of [c], whether [c] returns or raises, and [Q] holds of the
    value returned, the state and the monitor state reached. *)
Definition monitored {A} (c : M A) (st : state) (m : gmap nat phase)
    (Q : A → state → gmap nat phase → Prop) : Prop :=
  ∃ m', monitor m (trace c st) = Some m' ∧
        fresh m' (final c st) ∧
        ∀ a, outcome c st = Ok a → Q a (final c st) m'.

(** Every event that [c] emits, from any state, satisfies [P]. *)
Definition emits {A} (P : event → Prop) (c : M A) : Prop :=
  ∀ st, Forall P (trace c st).

Definition not_finalize (ev : event) : Prop :=
  match ev with
  | Call_finalize _ _ _ => False
  | _ => True
  end.

(** A small corpus: every split of both languages holds one line. *)
Definition demo_args : args :=
  {| source_lang := Some (lit "de"); target_lang := Some (lit "en");
     train_prefix := Some (lit "raw/train"); tiny_train_prefix := Some (lit "raw/tiny_train");
     valid_prefix := Some (lit "raw/valid"); test_prefix := Some (lit "raw/test");
     dest_dir := lit "data-bin";
     threshold_src := 2; num_words_src := -1;
     threshold_tgt := 2; num_words_tgt := -1;
     quiet := false; vocab_threshold := 1; num_merge_operations := 32000 |}.

Definition demo_files : gmap (list ascii) file :=
  list_to_map
    ((λ name, (lit "data-bin/" ++ lit name, Text [lit "a b a" ++ NEWLINE])) <$>
     ["train.bpe.de"; "valid.bpe.de"; "test.bpe.de"; "tiny_train.bpe.de";
      "train.bpe.en"; "valid.bpe.en"; "test.bpe.en"; "tiny_train.bpe.en"]%string).

(** A segmentation that has already been carried out: the segmented files
    are in the store. *)
Definition segmented : segmentation := λ _ fs, (Ok tt, fs).

(** ** Persistence before binarization *)

(** A second monitor: the set of the dictionaries that have been saved.
    [make_binary_dataset] on a dictionary outside the set is a violation. *)
Definition save_step (s : gset nat) (ev : event) : option (gset nat) :=
  match ev with
  | Call_save d _ => Some ({[d]} ∪ s)
  | Call_make_binary_dataset d _ _ => if decide (d ∈ s) then Some s else None
  | _ => Some s
  end.

Fixpoint save_monitor (s : gset nat) (tr : list event) : option (gset nat) :=
  match tr with
  | [] => Some s
  | ev :: tr' =>
      match save_step s ev with
      | Some s' => save_monitor s' tr'
      | None => None
      end
  end.

(** Whenever a dictionary is handed to [make_binary_dataset], it has been
    saved before. *)
Definition saved_before_binarized (tr : list event) : Prop :=
  ∀ pre post d input_file output_file,
    tr = pre ++ Call_make_binary_dataset d input_file output_file :: post →
    ∃ path, Call_save d path ∈ pre.

(** From the set [s], the second monitor accepts the events of [c], and
    [Q] holds of the value returned and the set reached. *)
Definition tracked {A} (c : M A) (st : state) (s : gset nat)
    (Q : A → gset nat → Prop) : Prop :=
  ∃ s', save_monitor s (trace c st) = Some s' ∧
        ∀ a, outcome c st = Ok a → Q a s'.

(** The thresholds a [finalize] of [BPE_preprocess.main] is called with:
    those of the source language, or those of the target language, the
    latter only when the two languages differ. *)
Definition finalize_uses (a : args) (ev : event) : Prop :=
  match ev with
  | Call_finalize _ threshold num_words =>
      (threshold = threshold_src a ∧ num_words = num_words_src a) ∨
      (source_lang a ≠ target_lang a ∧
       threshold = threshold_tgt a ∧ num_words = num_words_tgt a)
  | _ => True
  end.

(* ================================================================== *)
(** * Proofs *)
(* ================================================================== *)

(** ** Text primitives *)

Section text_lemmas.
Implicit Types (s w ws r cur : pystr) (c : ascii) (ts : list pystr).

Lemma flush_rev cur : cur ≠ [] → flush cur = [rev cur].
Proof. by destruct cur. Qed.

Lemma split_go_space cur c s :
  isspace c = true → split_go cur (c :: s) = flush cur ++ split_go [] s.
Proof. intros Hc. simpl. by rewrite Hc. Qed.

Lemma split_go_word cur w s :
  no_space w → split_go cur (w ++ s) = split_go (rev w ++ cur) s.
Proof.
  intros Hw. revert cur. induction Hw as [|c w Hc _ IH]; intros cur; [done|].
  simpl. rewrite Hc, IH. by rewrite <- app_assoc.
Qed.

Lemma str_split_spaces ws s : all_space ws → str_split (ws ++ s) = str_split s.
Proof.
  unfold str_split. induction 1 as [|c ws Hc _ IH]; [done|].
  simpl. by rewrite Hc.
Qed.

Lemma str_split_all_space ws : all_space ws → str_split ws = [].
Proof.
  intros H. rewrite <- (app_nil_r ws). by rewrite str_split_spaces.
Qed.

Lemma str_split_word_end w : is_token w → str_split w = [w].
Proof.
  intros [Hne Hw]. unfold str_split.
  rewrite <- (app_nil_r w) at 1. rewrite split_go_word by done.
  rewrite app_nil_r. simpl. rewrite flush_rev, rev_involutive; [done|].
  intros E. apply Hne. by rewrite <- (rev_involutive w), E.
Qed.

Lemma str_split_word_space w c s :
  is_token w → isspace c = true → str_split (w ++ c :: s) = w :: str_split s.
Proof.
  intros [Hne Hw] Hc. unfold str_split.
  rewrite split_go_word by done. rewrite app_nil_r, split_go_space by done.
  rewrite flush_rev, rev_involutive; [done|].
  intros E. apply Hne. by rewrite <- (rev_involutive w), E.
Qed.

Lemma flush_tokens cur : no_space cur → Forall is_token (flush cur).
Proof.
  intros Hcur. destruct cur as [|c cur]; [constructor|].
  unfold flush. constructor; [|constructor]. split.
  - simpl. intros E. by apply app_eq_nil in E as [_ ?].
  - by apply List.Forall_rev.
Qed.

Lemma split_go_tokens cur s :
  no_space cur → Forall is_token (split_go cur s).
Proof.
  revert cur. induction s as [|c s IH]; intros cur Hcur; simpl.
  - by apply flush_tokens.
  - destruct (isspace c) eqn:Hc.
    + apply Forall_app. split; [by apply flush_tokens|apply IH; constructor].
    + apply IH. by constructor.
Qed.

Lemma str_split_tokens s : Forall is_token (str_split s).
Proof. apply split_go_tokens. constructor. Qed.
(** Every string is blank, or starts (after blanks) with a token that
    ends the string or is followed by whitespace. *)
Lemma str_cases s :
  all_space s ∨
  ∃ ws w r, s = ws ++ w ++ r ∧ all_space ws ∧ is_token w ∧
            (r = [] ∨ ∃ c r', r = c :: r' ∧ isspace c = true).
Proof.
  induction s as [|c s IH]; [left; constructor|].
  destruct (isspace c) eqn:Hc.
  - destruct IH as [Hs|(ws & w & r & -> & Hws & Hw & Hr)].
    + left. by constructor.
    + right. exists (c :: ws), w, r. split_and!; try done. by constructor.
  - right. destruct IH as [Hs|(ws & w & r & -> & Hws & [Hne Hw] & Hr)].
    + exists [], [c], s. split_and!; try done.
      * constructor.
      * split; [done|by repeat constructor].
      * destruct Hs as [|c' s' Hc' _]; [by left|right; eauto].
    + destruct Hws as [|c' ws' Hc' Hws'].
      * exists [], (c :: w), r. split_and!; try done; [constructor|].
        split; [done|by constructor].
      * exists [], [c], ((c' :: ws') ++ w ++ r). split_and!; try done.
        -- constructor.
        -- split; [done|by repeat constructor].
        -- right. eauto.
Qed.

Lemma str_lstrip_token_start c s : isspace c = false → str_lstrip (c :: s) = c :: s.
Proof. intros Hc. simpl. by rewrite Hc. Qed.

Lemma str_lstrip_app_token a c b :
  isspace c = false → str_lstrip (a ++ c :: b) = str_lstrip a ++ c :: b.
Proof.
  intros Hc. induction a as [|x a IH]; simpl; [by rewrite Hc|].
  by destruct (isspace x).
Qed.

Lemma str_lstrip_app_space a c :
  isspace c = true →
  str_lstrip (a ++ [c]) = match str_lstrip a with [] => [] | l => l ++ [c] end.
Proof.
  intros Hc. induction a as [|x a IH]; simpl; [by rewrite Hc|].
  by destruct (isspace x).
Qed.

Lemma str_rstrip_token_app w x :
  is_token w → str_rstrip (w ++ x) = w ++ str_rstrip x.
Proof.
  intros [Hne Hw]. unfold str_rstrip. rewrite rev_app_distr.
  destruct (rev w) as [|c w'] eqn:E.
  { exfalso. apply Hne. by rewrite <- (rev_involutive w), E. }
  assert (isspace c = false) as Hc.
  { apply List.Forall_rev in Hw. rewrite E in Hw. by inversion Hw. }
  rewrite str_lstrip_app_token by done. rewrite rev_app_distr.
  by rewrite <- E, rev_involutive.
Qed.

Lemma str_rstrip_space_cons c x :
  isspace c = true →
  str_rstrip (c :: x) = match str_rstrip x with [] => [] | r => c :: r end.
Proof.
  intros Hc. unfold str_rstrip. simpl. rewrite str_lstrip_app_space by done.
  destruct (str_lstrip (rev x)) as [|y l]; [done|].
  rewrite rev_app_distr. simpl.
  destruct (rev l ++ [y]) eqn:E; [|done].
  by apply app_eq_nil in E as [_ ?].
Qed.

Lemma sub_go_no_space w x : no_space w → sub_go false (w ++ x) = w ++ sub_go false x.
Proof. induction 1 as [|c w Hc _ IH]; [done|]. simpl. by rewrite Hc, IH. Qed.

Lemma sub_go_token b w x : is_token w → sub_go b (w ++ x) = w ++ sub_go false x.
Proof.
  intros [Hne Hw]. destruct Hw as [|c w Hc Hw]; [done|].
  simpl. rewrite Hc. by rewrite sub_go_no_space.
Qed.

Lemma sub_go_spaces ws x : all_space ws → sub_go true (ws ++ x) = sub_go true x.
Proof. induction 1 as [|c ws Hc _ IH]; [done|]. simpl. by rewrite Hc. Qed.

Lemma str_lstrip_sub_true x : str_lstrip (sub_go true x) = sub_go true x.
Proof.
  induction x as [|c x IH]; [done|]. simpl.
  destruct (isspace c) eqn:Hc; [done|]. simpl. by rewrite Hc.
Qed.

Lemma str_lstrip_sub_false x : str_lstrip (sub_go false x) = sub_go true x.
Proof.
  destruct x as [|c x]; [done|]. simpl.
  destruct (isspace c) eqn:Hc; simpl.
  - apply str_lstrip_sub_true.
  - by rewrite Hc.
Qed.

Lemma str_join_tokens_nil ts :
  Forall is_token ts → str_join (lit " ") ts = [] → ts = [].
Proof.
  intros Hts E. destruct Hts as [|t ts [Hne _] _]; [done|].
  exfalso. destruct ts; simpl in E; [done|].
  by apply app_eq_nil in E as [? _].
Qed.

Lemma str_join_cons t ts :
  str_join (lit " ") (t :: ts) =
  match ts with [] => t | _ => t ++ " "%char :: str_join (lit " ") ts end.
Proof. by destruct ts. Qed.
Lemma str_rstrip_sub_join s :
  str_rstrip (sub_go true s) = str_join (lit " ") (str_split s).
Proof.
  remember (length s) as n eqn:Hn. revert s Hn.
  induction (lt_wf n) as [n _ IH]. intros s ->.
  destruct (str_cases s) as [Hs|(ws & w & r & -> & Hws & Hw & Hr)].
  - rewrite str_split_all_space by done.
    rewrite <- (app_nil_r s), sub_go_spaces by done. done.
  - rewrite sub_go_spaces, str_split_spaces by done.
    rewrite sub_go_token, str_rstrip_token_app by done.
    destruct Hr as [->|(c & r' & -> & Hc)].
    + replace (w ++ []) with w by (by rewrite app_nil_r).
      rewrite str_split_word_end by done. by rewrite app_nil_r.
    + rewrite str_split_word_space by done.
      simpl sub_go. rewrite Hc.
      rewrite str_rstrip_space_cons by done.
      rewrite (IH (length r')) with (s := r'); [|simpl; rewrite ?length_app; simpl; lia|done].
      rewrite str_join_cons.
      pose proof (str_split_tokens r') as Htok.
      destruct (str_split r') as [|t ts] eqn:E; [simpl; by rewrite app_nil_r|].
      destruct (str_join (lit " ") (t :: ts)) eqn:EJ; [|done].
      by apply str_join_tokens_nil in EJ.
Qed.

(** Collapsing and trimming a line yields its tokens joined by single
    spaces. *)
Lemma str_strip_sub_join s :
  str_strip (SPACE_NORMALIZER_sub s) = str_join (lit " ") (str_split s).
Proof.
  unfold str_strip, SPACE_NORMALIZER_sub.
  by rewrite str_lstrip_sub_false, str_rstrip_sub_join.
Qed.

(** Splitting a line of tokens joined by single spaces gives the tokens
    back. *)
Lemma str_split_join ts :
  Forall is_token ts → str_split (str_join (lit " ") ts) = ts.
Proof.
  induction 1 as [|t ts Ht Hts IH]; [done|].
  rewrite str_join_cons. destruct ts as [|t' ts'].
  - by apply str_split_word_end.
  - rewrite str_split_word_space by done. by rewrite IH.
Qed.

Lemma no_space_not_separator c : isspace c = false → Ascii.eqb c " " = false.
Proof. intros Hc. destruct (Ascii.eqb_spec c " ") as [->|]; [done|done]. Qed.

Lemma fields_go_word cur w s :
  no_space w → fields_go cur (w ++ s) = fields_go (rev w ++ cur) s.
Proof.
  intros Hw. revert cur. induction Hw as [|c w Hc _ IH]; intros cur; [done|].
  simpl. rewrite no_space_not_separator, IH by done. by rewrite <- app_assoc.
Qed.

Lemma fields_go_join ts :
  Forall is_token ts → ts ≠ [] → fields_go [] (str_join (lit " ") ts) = ts.
Proof.
  induction 1 as [|t ts [Hne Ht] Hts IH]; [done|]. intros _.
  rewrite str_join_cons. destruct ts as [|t' ts'].
  - rewrite <- (app_nil_r t) at 1. rewrite fields_go_word by done.
    simpl. by rewrite app_nil_r, rev_involutive.
  - rewrite fields_go_word by done.
    change (fields_go ?c (" "%char :: ?x)) with (rev c :: fields_go [] x).
    rewrite app_nil_r, rev_involutive. by rewrite IH.
Qed.

Lemma split_on_separator_join ts :
  Forall is_token ts → split_on_separator (str_join (lit " ") ts) = ts.
Proof.
  intros Hts. destruct ts as [|t ts]; [done|].
  unfold split_on_separator.
  destruct (str_join (lit " ") (t :: ts)) eqn:E.
  - by apply str_join_tokens_nil in E.
  - rewrite <- E. by apply fields_go_join.
Qed.

Lemma word_tokenize_split s : word_tokenize s = str_split s.
Proof.
  unfold word_tokenize. rewrite str_strip_sub_join.
  apply str_split_join, str_split_tokens.
Qed.

Lemma str_lstrip_spaces ws s : all_space ws → str_lstrip (ws ++ s) = str_lstrip s.
Proof. induction 1 as [|c ws Hc _ IH]; [done|]. simpl. by rewrite Hc. Qed.

Lemma str_split_lstrip s : str_split (str_lstrip s) = str_split s.
Proof.
  induction s as [|c s IH]; [done|]. simpl.
  destruct (isspace c) eqn:Hc; [|done].
  rewrite IH. symmetry. apply (str_split_spaces [c]). by repeat constructor.
Qed.

Lemma str_split_rstrip s : str_split (str_rstrip s) = str_split s.
Proof.
  remember (length s) as n eqn:Hn. revert s Hn.
  induction (lt_wf n) as [n _ IH]. intros s ->.
  destruct (str_cases s) as [Hs|(ws & w & r & -> & Hws & Hw & Hr)].
  - rewrite (str_split_all_space s) by done.
    destruct Hs as [|c s Hc Hs]; [done|].
    rewrite str_rstrip_space_cons by done.
    assert (str_split (str_rstrip s) = []) as E.
    { rewrite (IH (length s)) with (s := s); [|simpl; lia|done].
      by apply str_split_all_space. }
    destruct (str_rstrip s) as [|c' r'] eqn:Er; [done|].
    change (c :: c' :: r') with ([c] ++ c' :: r').
    rewrite str_split_spaces by (by repeat constructor). done.
  - destruct Hws as [|c ws Hc Hws].
    + simpl. rewrite str_rstrip_token_app by done.
      destruct Hr as [->|(c & r' & -> & Hc)].
      * unfold str_rstrip. simpl. done.
      * rewrite str_split_word_space by done.
        rewrite str_rstrip_space_cons by done.
        assert (str_split (str_rstrip r') = str_split r') as E.
        { apply (IH (length r')); [simpl; rewrite ?length_app; simpl; lia|done]. }
        destruct (str_rstrip r') as [|c' r''] eqn:Er.
        -- rewrite app_nil_r, str_split_word_end by done. by rewrite <- E.
        -- rewrite str_split_word_space by done. by rewrite E.
    + rewrite <- app_comm_cons. 
      assert (str_split (str_rstrip (ws ++ w ++ r)) = str_split (ws ++ w ++ r)) as E.
      { apply (IH (length (ws ++ w ++ r))); [simpl; lia|done]. }
      rewrite str_rstrip_space_cons by done.
      destruct (str_rstrip (ws ++ w ++ r)) as [|c' r''] eqn:Er.
      * exfalso. rewrite str_split_spaces in E by done.
        destruct Hr as [->|(c0 & r' & -> & Hc0)].
        -- rewrite (app_nil_r w), (str_split_word_end w) in E by done.
           by change (str_split []) with (@nil (list ascii)) in E.
        -- rewrite (str_split_word_space w) in E by done.
           by change (str_split []) with (@nil (list ascii)) in E.
      * change (c :: c' :: r'') with ([c] ++ c' :: r'').
        rewrite (str_split_spaces [c]) by (by repeat constructor).
        rewrite E.
        change (c :: ws ++ w ++ r) with ([c] ++ ws ++ w ++ r).
        by rewrite (str_split_spaces [c]) by (by repeat constructor).
Qed.

Lemma str_split_strip s : str_split (str_strip s) = str_split s.
Proof. unfold str_strip. by rewrite str_split_rstrip, str_split_lstrip. Qed.
End text_lemmas.

Lemma split_go_trailing_spaces cur s ws :
  all_space ws → split_go cur (s ++ ws) = split_go cur s.
Proof.
  intros Hws. revert cur. induction s as [|c s IH]; intros cur; simpl.
  - destruct Hws as [|c ws Hc Hws]; [done|].
    rewrite split_go_space by done.
    change (split_go [] ws) with (str_split ws).
    by rewrite str_split_all_space, app_nil_r.
  - by rewrite !IH.
Qed.

Lemma str_split_trailing_spaces s ws :
  all_space ws → str_split (s ++ ws) = str_split s.
Proof. apply split_go_trailing_spaces. Qed.

(** ** The tokenization rule *)

Lemma bin_step_tokens_list d append_eos st line :
  tokens_list (bin_step d append_eos st line) =
  tokens_list st ++
    [(Dictionary_lookup d <$> word_tokenize line)
     ++ (if append_eos then [eos_idx d] else [])].
Proof.
  unfold bin_step, Dictionary_binarize. simpl.
  by rewrite !word_tokenize_split, str_split_strip.
Qed.

(** C5. For every input line, [word_tokenize] collapses every run of
    whitespace to a single separator, trims the line and splits it on the
    separator. Its tokens are the maximal whitespace-free runs of the line
    in their left-to-right order: none is empty or holds whitespace, and
    joined again by single spaces they give the collapsed and trimmed line.
    The binarizer tokenizes a line by the same rule: the sequence it
    appends for a line holds the ids of exactly these tokens, in order. *)
Theorem word_tokenize_rule (line : pystr) :
  word_tokenize line = tokenize_rule line ∧
  word_tokenize line = str_split line ∧
  Forall is_token (word_tokenize line) ∧
  str_join (lit " ") (word_tokenize line) = str_strip (SPACE_NORMALIZER_sub line) ∧
  word_tokenize (str_strip line) = word_tokenize line ∧
  ∀ d append_eos st,
    tokens_list (bin_step d append_eos st line) =
    tokens_list st ++
      [(Dictionary_lookup d <$> word_tokenize line)
       ++ (if append_eos then [eos_idx d] else [])].
Proof.
  split_and!.
  - unfold tokenize_rule. rewrite str_strip_sub_join, word_tokenize_split.
    symmetry. apply split_on_separator_join, str_split_tokens.
  - apply word_tokenize_split.
  - rewrite word_tokenize_split. apply str_split_tokens.
  - by rewrite word_tokenize_split, str_strip_sub_join.
  - by rewrite !word_tokenize_split, str_split_strip.
  - intros. apply bin_step_tokens_list.
Qed.

(** ** The Vocabulary Filter *)

Lemma sentinel_is_token : is_token LOW_FREQUENCY_SENTINEL.
Proof. split; [done|]. repeat constructor. Qed.

Lemma filter_word_token vocab threshold w :
  is_token w → is_token (filter_word vocab threshold w).
Proof.
  intros Hw. unfold filter_word. case_bool_decide; [done|apply sentinel_is_token].
Qed.

Lemma filter_line_split vocab threshold bpe_line :
  str_split (filter_line vocab threshold bpe_line) =
  filter_word vocab threshold <$> str_split bpe_line.
Proof.
  unfold filter_line.
  rewrite str_split_trailing_spaces by (by repeat constructor).
  apply str_split_join. apply Forall_fmap.
  eapply Forall_impl; [apply str_split_tokens|].
  intros w Hw. by apply filter_word_token.
Qed.

(** C4. For every segmented line, frequency table and threshold, the line
    the filter writes has exactly the tokens of the segmented line, as many
    and in the same order, each kept when its recorded frequency (0 when
    it has none) is at least the threshold and replaced by the sentinel
    ["@@UNKNOWN@@"] otherwise. With the table x:5, y:1 and threshold 2 the
    line "x y x" becomes x, the sentinel, x. *)
Theorem filter_line_preserves_tokens
    (vocab : gmap (list ascii) Z) (threshold : Z) (bpe_line : pystr) :
  length (str_split (filter_line vocab threshold bpe_line))
    = length (str_split bpe_line) ∧
  (∀ i word, str_split bpe_line !! i = Some word →
     str_split (filter_line vocab threshold bpe_line) !! i =
     Some (if bool_decide (threshold ≤ default 0 (vocab !! word))
           then word else lit "@@UNKNOWN@@")) ∧
  filter_line (<[lit "x" := 5]> (<[lit "y" := 1]> ∅)) 2 (lit "x y x")
    = lit "x @@UNKNOWN@@ x" ++ NEWLINE.
Proof.
  split_and!.
  - by rewrite filter_line_split, length_fmap.
  - intros i word Hi. rewrite filter_line_split, list_lookup_fmap, Hi. done.
  - by vm_compute.
Qed.

(** A recorded negative count lies below a threshold of zero: the table of
    the specification holds occurrence counts, which are not negative, and
    the last part of the next theorem is stated for such tables. *)
Example filter_word_negative_count :
  filter_word (<[lit "y" := -3]> ∅) 0 (lit "y") = lit "@@UNKNOWN@@".
Proof. by vm_compute. Qed.



(** ** Malformed vocabulary listings *)

Lemma load_vocab_good vocab good lines :
  Forall (λ l, well_formed_vocab_line l = true) good →
  ∃ vocab', load_vocab vocab (good ++ lines) = load_vocab vocab' lines.
Proof.
  intros Hgood. revert vocab. induction Hgood as [|l good Hl _ IH]; intros vocab.
  - by exists vocab.
  - simpl. unfold well_formed_vocab_line in Hl. unfold parse_vocab_line.
    destruct (str_split (str_strip l)) as [|w [|f [|? ?]]]; try done.
    apply bool_decide_eq_true in Hl as [n Hn]. rewrite Hn. apply IH.
Qed.

Lemma apply_bpe_with_vocab_filter_parse_error
    bpe input_file output_file vocab_path threshold st good line rest e :
  files st !! vocab_path = Some (Text (good ++ line :: rest)) →
  Forall (λ l, well_formed_vocab_line l = true) good →
  parse_vocab_line line = Raise e →
  apply_bpe_with_vocab_filter bpe input_file output_file vocab_path threshold st
    = (Raise e, st, []).
Proof.
  intros Hfile Hgood Hline.
  destruct (load_vocab_good ∅ good (line :: rest) Hgood) as [vocab' Hload].
  unfold apply_bpe_with_vocab_filter, mbind, M_bind, read_lines, lift_result.
  rewrite Hfile, Hload. simpl. by rewrite Hline.
Qed.

(** C3, as stated, fails: the exception raised for the malformed third line
    of the listing [vocab.de] mentions neither the path nor the number of
    the line. *)
Lemma malformed_line_error_names_no_place :
  ¬ names_place
      (outcome
         (apply_bpe_with_vocab_filter (λ l, l) (lit "train.de") (lit "train.bpe.de")
            (lit "vocab.de") 2)
         (State (<[lit "vocab.de" := Text [lit "x 5" ++ NEWLINE;
                                           lit "y 1" ++ NEWLINE;
                                           lit "z" ++ NEWLINE]]>
                 (<[lit "train.de" := Text [lit "x y" ++ NEWLINE]]> ∅)) 0))
      (lit "vocab.de") 3.
Proof.
  intros (e & He & Hpath & _).
  vm_compute in He. injection He as <-. by vm_compute in Hpath.
Qed.

(** C3, amended. When the filter reads a malformed line of the vocabulary
    listing (all lines before it being well formed), the call fails with a
    [ValueError] that the fields of the line determine: the number of
    fields when it is not two, the literal when the second field is not an
    integer. The exception carries neither path nor line number; nothing
    has been written when it is raised. *)
Theorem malformed_vocab_line_raises
    (bpe : pystr → pystr) (input_file output_file vocab_path : pystr)
    (threshold : Z) (st : state) (good rest : list pystr) (line : pystr) :
  files st !! vocab_path = Some (Text (good ++ line :: rest)) →
  Forall (λ l, well_formed_vocab_line l = true) good →
  (length (str_split (str_strip line)) ≠ 2%nat →
   apply_bpe_with_vocab_filter bpe input_file output_file vocab_path threshold st
     = (Raise (ValueError_unpack 2 (length (str_split (str_strip line)))), st, [])) ∧
  (∀ word freq,
     str_split (str_strip line) = [word; freq] → py_int freq = None →
     apply_bpe_with_vocab_filter bpe input_file output_file vocab_path threshold st
       = (Raise (ValueError_int freq), st, [])).
Proof.
  intros Hfile Hgood. split.
  - intros Hlen. eapply apply_bpe_with_vocab_filter_parse_error; [done..|].
    unfold parse_vocab_line.
    by destruct (str_split (str_strip line)) as [|w [|f [|? ?]]].
  - intros word freq Hfields Hint.
    eapply apply_bpe_with_vocab_filter_parse_error; [done..|].
    unfold parse_vocab_line. by rewrite Hfields, Hint.
Qed.

Lemma malformed_vocab_line_raises_witness :
  let st := State (<[lit "vocab.de" := Text [lit "x 5" ++ NEWLINE;
                                             lit "y" ++ NEWLINE;
                                             lit "z one" ++ NEWLINE]]>
                   (<[lit "train.de" := Text [lit "x y" ++ NEWLINE]]> ∅)) 0 in
  apply_bpe_with_vocab_filter (λ l, l) (lit "train.de") (lit "train.bpe.de")
    (lit "vocab.de") 2 st
  = (Raise (ValueError_unpack 2 1), st, []).
Proof.
  intros st.
  refine (proj1 (malformed_vocab_line_raises (λ l, l) (lit "train.de")
                   (lit "train.bpe.de") (lit "vocab.de") 2 st
                   [lit "x 5" ++ NEWLINE] [lit "z one" ++ NEWLINE]
                   (lit "y" ++ NEWLINE) _ _) _).
  - reflexivity.
  - repeat constructor.
  - vm_compute. lia.
Defined.

(** ** The loop of [make_binary_dataset] *)

Lemma bin_step_eq d append_eos st line :
  bin_step d append_eos st line =
  BinState (nsent st + 1)
           (ntok st + Z.of_nat (length (binarized_line d append_eos line)))
           (foldl (λ c token, unk_consumer d token (Dictionary_lookup d token) c)
                  (unk_counter st) (word_tokenize line))
           (tokens_list st ++ [binarized_line d append_eos line]).
Proof.
  unfold bin_step, Dictionary_binarize, binarized_line.
  assert (word_tokenize (str_strip line) = word_tokenize line) as ->; [|done].
  by rewrite !word_tokenize_split, str_split_strip.
Qed.

Lemma foldl_bin_step_tokens_list d append_eos st lines :
  tokens_list (foldl (bin_step d append_eos) st lines) =
  tokens_list st ++ (binarized_line d append_eos <$> lines).
Proof.
  revert st. induction lines as [|line lines IH]; intros st; simpl.
  - by rewrite app_nil_r.
  - rewrite IH, bin_step_eq. simpl. by rewrite <- app_assoc.
Qed.

Lemma bin_loop_tokens_list d append_eos lines :
  tokens_list (bin_loop d append_eos lines) = binarized_line d append_eos <$> lines.
Proof. unfold bin_loop. by rewrite foldl_bin_step_tokens_list. Qed.

Lemma foldl_bin_step_counts d append_eos st lines :
  nsent (foldl (bin_step d append_eos) st lines)
    = nsent st + Z.of_nat (length lines) ∧
  ntok (foldl (bin_step d append_eos) st lines)
    = ntok st + Z.of_nat (length (concat (binarized_line d append_eos <$> lines))).
Proof.
  revert st. induction lines as [|line lines IH]; intros st.
  - simpl. split; lia.
  - change (foldl ?f st (line :: lines)) with (foldl f (f st line) lines).
    destruct (IH (bin_step d append_eos st line)) as [-> ->].
    rewrite bin_step_eq. cbn [nsent ntok].
    rewrite fmap_cons, concat_cons, length_app, length_cons. split; lia.
Qed.

Lemma bin_loop_ntok d append_eos lines :
  ntok (bin_loop d append_eos lines)
    = Z.of_nat (length (concat (binarized_line d append_eos <$> lines))).
Proof.
  unfold bin_loop.
  destruct (foldl_bin_step_counts d append_eos bin_init lines) as [_ ->]. done.
Qed.

Lemma bin_loop_nsent d append_eos lines :
  nsent (bin_loop d append_eos lines) = Z.of_nat (length lines).
Proof.
  unfold bin_loop.
  destruct (foldl_bin_step_counts d append_eos bin_init lines) as [-> _]. done.
Qed.

(** What a call of [make_binary_dataset] does when the input file is a
    readable text file: the sequences are written in any case, and the
    summary is emitted unless the run is quiet or the division raises. *)
Lemma make_binary_dataset_run quiet input_file output_file d tokenize append_eos st lines :
  files st !! input_file = Some (Text lines) →
  let b := bin_loop d append_eos lines in
  let st' := State (<[output_file := Pickle (binarized_line d append_eos <$> lines)]>
                      (files st)) (next_oid st) in
  make_binary_dataset quiet input_file output_file d tokenize append_eos st =
  if quiet then
    (Ok tt, st', [Call_make_binary_dataset (oid d) input_file output_file])
  else
    match percent (Counter_total (unk_counter b)) (ntok b) with
    | Ok pct =>
        (Ok tt, st',
         [Call_make_binary_dataset (oid d) input_file output_file;
          Logging_info_built input_file (nsent b) (ntok b) pct])
    | Raise e =>
        (Raise e, st', [Call_make_binary_dataset (oid d) input_file output_file])
    end.
Proof.
  intros Hfile b st'.
  unfold make_binary_dataset, mbind, M_bind, emit, read_lines, pickle_dump,
    lift_result, mret, M_ret.
  simpl. rewrite Hfile. simpl. rewrite bin_loop_tokens_list. fold b. fold st'.
  destruct quiet; [done|].
  by destruct (percent (Counter_total (unk_counter b)) (ntok b)).
Qed.

(** When the input file cannot be read, nothing is written. *)
Lemma make_binary_dataset_unreadable quiet input_file output_file d tokenize append_eos st :
  (∀ lines, files st !! input_file ≠ Some (Text lines)) →
  ∃ e, make_binary_dataset quiet input_file output_file d tokenize append_eos st =
       (Raise e, st, [Call_make_binary_dataset (oid d) input_file output_file]).
Proof.
  intros Hfile.
  unfold make_binary_dataset, mbind, M_bind, emit, read_lines. simpl.
  destruct (files st !! input_file) as [[lines|obj]|] eqn:E; eauto.
  by destruct (Hfile lines).
Qed.

(** ** The diagnostic summary *)

(** With tokens in the file, a call that is not quiet completes and emits
    the summary: the numbers of sentences and tokens and the percentage. *)
Lemma make_binary_dataset_summary input_file output_file d tokenize append_eos st lines :
  files st !! input_file = Some (Text lines) →
  ntok (bin_loop d append_eos lines) ≠ 0 →
  ∃ pct,
    outcome (make_binary_dataset false input_file output_file d tokenize append_eos) st
      = Ok tt ∧
    trace (make_binary_dataset false input_file output_file d tokenize append_eos) st
      = [Call_make_binary_dataset (oid d) input_file output_file;
         Logging_info_built input_file (Z.of_nat (length lines))
           (ntok (bin_loop d append_eos lines)) pct].
Proof.
  intros Hfile Hntok. unfold outcome, trace.
  rewrite (make_binary_dataset_run false _ _ _ _ _ _ lines Hfile).
  unfold percent. destruct (Z.eqb_spec (ntok (bin_loop d append_eos lines)) 0); [done|].
  eexists. by rewrite bin_loop_nsent.
Qed.

(** C2 (the code departs from it). A file without any token makes the
    summary divide by zero: when the file has no line, or when
    [append_eos] is unset and every line is blank, a call that is not quiet
    raises [ZeroDivisionError] after it has written the sequences, and
    emits no summary. *)
Theorem make_binary_dataset_zero_tokens_raises
    (input_file output_file : pystr) (d : Dictionary)
    (tokenize : pystr → list pystr) (append_eos : bool) (st : state)
    (lines : list pystr) :
  files st !! input_file = Some (Text lines) →
  lines = [] ∨ (append_eos = false ∧ Forall (λ l, word_tokenize l = []) lines) →
  make_binary_dataset false input_file output_file d tokenize append_eos st =
  (Raise ZeroDivisionError,
   State (<[output_file := Pickle (binarized_line d append_eos <$> lines)]> (files st))
         (next_oid st),
   [Call_make_binary_dataset (oid d) input_file output_file]).
Proof.
  intros Hfile Hzero.
  rewrite (make_binary_dataset_run false _ _ _ _ _ _ lines Hfile).
  assert (ntok (bin_loop d append_eos lines) = 0) as ->; [|done].
  rewrite bin_loop_ntok. clear Hfile.
  destruct Hzero as [->|[-> Hblank]]; [done|].
  induction Hblank as [|l lines Hl _ IH]; [done|].
  rewrite fmap_cons, concat_cons, length_app.
  unfold binarized_line at 1. rewrite Hl. simpl. lia.
Qed.

Lemma make_binary_dataset_zero_tokens_raises_witness :
  outcome (make_binary_dataset false (lit "train.bpe.de") (lit "train.bin.de")
             (Dictionary_new 0) word_tokenize true)
          (State (<[lit "train.bpe.de" := Text []]> ∅) 0)
  = Raise ZeroDivisionError.
Proof.
  unfold outcome.
  rewrite (make_binary_dataset_zero_tokens_raises (lit "train.bpe.de")
             (lit "train.bin.de") (Dictionary_new 0) word_tokenize true
             (State (<[lit "train.bpe.de" := Text []]> ∅) 0) []);
    [reflexivity|reflexivity|by left].
Defined.

(** ** Blank lines *)

(** C7. A line that is empty after trimming binarizes to no token id plus,
    when [append_eos] is set, the end-of-sequence id alone. Processing it
    adds 1 to the sentence count and 0 ([append_eos] unset) or 1 (set) to
    the token count. *)
Theorem binarize_blank_line
    (d : Dictionary) (append_eos : bool) (st : bin_state) (line : pystr) :
  str_strip line = [] →
  (∀ (A : Type) (consumer : pystr → Z → A → A) (acc : A),
     Dictionary_binarize d (str_strip line) word_tokenize append_eos consumer acc
     = (if append_eos then [eos_idx d] else [], acc)) ∧
  nsent (bin_step d append_eos st line) = nsent st + 1 ∧
  ntok (bin_step d append_eos st line) = ntok st + (if append_eos then 1 else 0) ∧
  tokens_list (bin_step d append_eos st line)
    = tokens_list st ++ [if append_eos then [eos_idx d] else []].
Proof.
  intros Hblank.
  assert (∀ (A : Type) (consumer : pystr → Z → A → A) (acc : A),
     Dictionary_binarize d (str_strip line) word_tokenize append_eos consumer acc
     = (if append_eos then [eos_idx d] else [], acc)) as Hbin.
  { intros. unfold Dictionary_binarize. by rewrite Hblank. }
  split; [done|]. unfold bin_step. rewrite Hbin. simpl.
  split_and!; [done| |done]. by destruct append_eos.
Qed.

Lemma binarize_blank_line_witness :
  nsent (bin_step (Dictionary_new 0) true bin_init (lit "  " ++ NEWLINE)) = 1 ∧
  ntok (bin_step (Dictionary_new 0) true bin_init (lit "  " ++ NEWLINE)) = 1 ∧
  tokens_list (bin_step (Dictionary_new 0) true bin_init (lit "  " ++ NEWLINE)) = [[3]].
Proof.
  destruct (binarize_blank_line (Dictionary_new 0) true bin_init
              (lit "  " ++ NEWLINE) eq_refl) as (_ & H1 & H2 & H3).
  rewrite H1, H2, H3. by split_and!.
Defined.

(** ** The binarized dataset file *)

(** C8. [make_binary_dataset] persists at the output path the sequences of
    the input lines, one per line and in their order; loading the file back
    yields exactly these sequences. (The store keeps the dumped object:
    that [pickle.load] inverts [pickle.dump] is the contract of the
    library.) This holds whether or not the summary is emitted. *)
Theorem make_binary_dataset_round_trip
    (quiet : bool) (input_file output_file : pystr) (d : Dictionary)
    (tokenize : pystr → list pystr) (append_eos : bool) (st : state)
    (lines : list pystr) :
  files st !! input_file = Some (Text lines) →
  let st' := final (make_binary_dataset quiet input_file output_file d tokenize
                      append_eos) st in
  ∃ sequences,
    pickle_load (files st' !! output_file) = Some sequences ∧
    length sequences = length lines ∧
    ∀ i line, lines !! i = Some line →
      sequences !! i =
      Some ((Dictionary_lookup d <$> word_tokenize line)
            ++ (if append_eos then [eos_idx d] else [])).
Proof.
  intros Hfile st'. exists (binarized_line d append_eos <$> lines).
  assert (files st' = <[output_file := Pickle (binarized_line d append_eos <$> lines)]>
                        (files st)) as ->.
  { unfold st', final.
    rewrite (make_binary_dataset_run quiet _ _ _ _ _ _ lines Hfile).
    destruct quiet; [done|]. by destruct (percent _ _). }
  rewrite lookup_insert_eq. split_and!; [done|by rewrite length_fmap|].
  intros i line Hi. by rewrite list_lookup_fmap, Hi.
Qed.

Lemma make_binary_dataset_round_trip_witness :
  ∃ sequences,
    pickle_load
      (files (final (make_binary_dataset true (lit "valid.bpe.de") (lit "valid.bin.de")
                       (Dictionary_new 0) word_tokenize true)
                    (State (<[lit "valid.bpe.de" :=
                                Text [lit "<s> a" ++ NEWLINE; NEWLINE]]> ∅) 0))
       !! lit "valid.bin.de") = Some sequences ∧
    length sequences = 2%nat.
Proof.
  destruct (make_binary_dataset_round_trip true (lit "valid.bpe.de")
              (lit "valid.bin.de") (Dictionary_new 0) word_tokenize true
              (State (<[lit "valid.bpe.de" :=
                          Text [lit "<s> a" ++ NEWLINE; NEWLINE]]> ∅) 0)
              [lit "<s> a" ++ NEWLINE; NEWLINE] (lookup_insert_eq _ _ _))
    as (sequences & H1 & H2 & _).
  exists sequences. by split.
Defined.

(** ** Determinism *)

(** C9. Two runs of [make_binary_dataset] on the same input file, with the
    same dictionary and the same [append_eos], produce the same sequences:
    whatever else the two stores hold and whatever the output paths and the
    verbosity, either both runs write the same list of sequences, or the
    input file is unreadable and both raise the same exception, having
    written nothing. *)
Theorem make_binary_dataset_deterministic
    (quiet1 quiet2 : bool) (input_file output1 output2 : pystr) (d : Dictionary)
    (tokenize1 tokenize2 : pystr → list pystr) (append_eos : bool)
    (st1 st2 : state) :
  files st1 !! input_file = files st2 !! input_file →
  let run1 := make_binary_dataset quiet1 input_file output1 d tokenize1 append_eos in
  let run2 := make_binary_dataset quiet2 input_file output2 d tokenize2 append_eos in
  (∃ sequences,
     pickle_load (files (final run1 st1) !! output1) = Some sequences ∧
     pickle_load (files (final run2 st2) !! output2) = Some sequences) ∨
  (∃ e, outcome run1 st1 = Raise e ∧ outcome run2 st2 = Raise e ∧
        final run1 st1 = st1 ∧ final run2 st2 = st2).
Proof.
  intros Hsame run1 run2.
  destruct (files st1 !! input_file) as [[lines|obj]|] eqn:E1.
  - left. exists (binarized_line d append_eos <$> lines).
    unfold run1, run2, final.
    rewrite (make_binary_dataset_run quiet1 _ _ _ _ _ _ lines E1).
    rewrite (make_binary_dataset_run quiet2 _ _ _ _ _ _ lines (eq_sym Hsame)).
    split.
    + destruct quiet1; [|destruct (percent _ _)]; simpl; by rewrite lookup_insert_eq.
    + destruct quiet2; [|destruct (percent _ _)]; simpl; by rewrite lookup_insert_eq.
  - right. exists (UnicodeDecodeError input_file).
    unfold run1, run2, outcome, final, make_binary_dataset, mbind, M_bind, emit,
      read_lines. simpl. by rewrite <- Hsame, E1.
  - right. exists (FileNotFoundError input_file).
    unfold run1, run2, outcome, final, make_binary_dataset, mbind, M_bind, emit,
      read_lines. simpl. by rewrite <- Hsame, E1.
Qed.

Lemma make_binary_dataset_deterministic_witness :
  let st1 := State (<[lit "test.bpe.en" := Text [lit "a b" ++ NEWLINE]]> ∅) 0 in
  let st2 := State (<[lit "test.bin.en" := Pickle [[7]]]>
                    (<[lit "test.bpe.en" := Text [lit "a b" ++ NEWLINE]]> ∅)) 1 in
  let run := make_binary_dataset true (lit "test.bpe.en") (lit "test.bin.en")
               (Dictionary_new 0) word_tokenize true in
  pickle_load (files (final run st1) !! lit "test.bin.en")
  = pickle_load (files (final run st2) !! lit "test.bin.en").
Proof.
  intros st1 st2 run.
  destruct (make_binary_dataset_deterministic true true (lit "test.bpe.en")
              (lit "test.bin.en") (lit "test.bin.en") (Dictionary_new 0)
              word_tokenize word_tokenize true st1 st2)
    as [(sequences & H1 & H2)|(e & H1 & _)].
  - by vm_compute.
  - fold run in H1, H2. by rewrite H1, H2.
  - by vm_compute in H1.
Defined.

(** The same, for a second run that starts where the first one ended: as
    long as the output path is not the input path, the second run writes
    what the first one wrote. *)
Lemma make_binary_dataset_twice quiet input_file output_file d tokenize append_eos st :
  input_file ≠ output_file →
  let run := make_binary_dataset quiet input_file output_file d tokenize append_eos in
  files (final run (final run st)) !! output_file = files (final run st) !! output_file
  ∧ files (final run (final run st)) !! input_file = files st !! input_file.
Proof.
  intros Hne run.
  destruct (files st !! input_file) as [[lines|obj]|] eqn:E.
  - assert (final run st =
            State (<[output_file := Pickle (binarized_line d append_eos <$> lines)]>
                     (files st)) (next_oid st)) as E1.
    { unfold run, final.
      rewrite (make_binary_dataset_run quiet _ _ _ _ _ _ lines E).
      destruct quiet; [done|]. by destruct (percent _ _). }
    assert (files (final run st) !! input_file = Some (Text lines)) as E2.
    { rewrite E1. simpl. by rewrite lookup_insert_ne. }
    assert (final run (final run st) =
            State (<[output_file := Pickle (binarized_line d append_eos <$> lines)]>
                     (files (final run st))) (next_oid (final run st))) as E3.
    { unfold run at 1, final at 1.
      rewrite (make_binary_dataset_run quiet _ _ _ _ _ _ lines E2).
      destruct quiet; [done|]. by destruct (percent _ _). }
    rewrite E3. simpl. rewrite lookup_insert_eq, lookup_insert_ne by done.
    rewrite E1. simpl. rewrite lookup_insert_eq, lookup_insert_ne by done. done.
  - assert (final run st = st) as E1.
    { destruct (make_binary_dataset_unreadable quiet input_file output_file d
                  tokenize append_eos st) as [e He]; [by rewrite E|].
      unfold run, final. by rewrite He. }
    by rewrite !E1.
  - assert (final run st = st) as E1.
    { destruct (make_binary_dataset_unreadable quiet input_file output_file d
                  tokenize append_eos st) as [e He]; [by rewrite E|].
      unfold run, final. by rewrite He. }
    by rewrite !E1.
Qed.

(** ** The statistics of unknown-symbol substitution *)

Lemma Counter_get_update1 c token word :
  Counter_get (Counter_update1 c token) word =
  Counter_get c word + (if bool_decide (token = word) then 1 else 0).
Proof.
  unfold Counter_update1, Counter_get. case_bool_decide as E.
  - subst. by rewrite lookup_insert_eq.
  - rewrite lookup_insert_ne by done. lia.
Qed.

Lemma unk_consumer_get d token idx c word :
  Counter_get (unk_consumer d token idx c) word =
  Counter_get c word +
  (if bool_decide (token = word ∧ idx = unk_idx d ∧ token ≠ unk_word d)
   then 1 else 0).
Proof.
  unfold unk_consumer.
  destruct (Z.eqb_spec idx (unk_idx d)) as [Hidx|Hidx]; simpl.
  - case_bool_decide as Hunk; simpl.
    + rewrite bool_decide_eq_false_2 by (by intros (_ & _ & ?)). lia.
    + rewrite Counter_get_update1.
      case_bool_decide as E.
      * by rewrite bool_decide_eq_true_2.
      * rewrite bool_decide_eq_false_2 by (by intros (? & _)). done.
  - rewrite bool_decide_eq_false_2 by (by intros (_ & ? & _)). lia.
Qed.

Lemma foldl_unk_consumer_get d c tokens word :
  Counter_get
    (foldl (λ c token, unk_consumer d token (Dictionary_lookup d token) c) c tokens)
    word =
  Counter_get c word +
  Z.of_nat (length (filter (λ t, t = word ∧ unk_substituted d t) tokens)).
Proof.
  revert c. induction tokens as [|t tokens IH]; intros c.
  - simpl. lia.
  - change (foldl ?f c (t :: tokens)) with (foldl f (f c t) tokens).
    rewrite IH, unk_consumer_get, filter_cons. unfold unk_substituted at 2.
    case_bool_decide as E.
    + rewrite decide_True by done. rewrite length_cons, Nat2Z.inj_succ.
      unfold Z.succ. rewrite <- Z.add_assoc, (Z.add_comm 1). reflexivity.
    + rewrite decide_False by done. rewrite Z.add_0_r. reflexivity.
Qed.

Lemma foldl_bin_step_unk_counter d append_eos st lines word :
  Counter_get (unk_counter (foldl (bin_step d append_eos) st lines)) word =
  Counter_get (unk_counter st) word +
  Z.of_nat (length (filter (λ t, t = word ∧ unk_substituted d t) (file_tokens lines))).
Proof.
  revert st. induction lines as [|line lines IH]; intros st.
  - simpl. lia.
  - change (foldl ?f st (line :: lines)) with (foldl f (f st line) lines).
    rewrite IH, bin_step_eq. cbn [unk_counter].
    rewrite foldl_unk_consumer_get. unfold file_tokens.
    rewrite fmap_cons, concat_cons, filter_app, length_app. lia.
Qed.

Lemma filter_none {A} (P : A → Prop) `{∀ x, Decision (P x)} (l : list A) :
  (∀ x, ¬ P x) → filter P l = [].
Proof.
  intros HP. induction l as [|x l IH]; [done|].
  rewrite filter_cons, decide_False by apply HP. done.
Qed.

(** C6. During binarization a token's surface form has its count
    incremented exactly when the id the token resolves to is the unknown id
    and the surface form is not the unknown symbol itself: each call of the
    hook adds one to the count of its token in that case and changes no
    count otherwise, so that after the file the count of a surface form is
    the number of its occurrences that were so substituted. Forms that
    resolve to another id, and the unknown symbol itself, are not counted. *)
Theorem unk_counter_counts_substitutions
    (d : Dictionary) (append_eos : bool) (lines : list pystr) (word : pystr) :
  (∀ c token idx,
     Counter_get (unk_consumer d token idx c) word =
     Counter_get c word +
     (if bool_decide (token = word ∧ idx = unk_idx d ∧ token ≠ unk_word d)
      then 1 else 0)) ∧
  Counter_get (unk_counter (bin_loop d append_eos lines)) word =
    Z.of_nat (length (filter (λ t, t = word ∧ unk_substituted d t)
                             (file_tokens lines))) ∧
  (Dictionary_lookup d word ≠ unk_idx d ∨ word = unk_word d →
   Counter_get (unk_counter (bin_loop d append_eos lines)) word = 0).
Proof.
  assert (Counter_get (unk_counter (bin_loop d append_eos lines)) word =
    Z.of_nat (length (filter (λ t, t = word ∧ unk_substituted d t)
                             (file_tokens lines)))) as Hcount.
  { unfold bin_loop. by rewrite foldl_bin_step_unk_counter. }
  split_and!; [intros; apply unk_consumer_get|done|].
  intros Hnot. rewrite Hcount, filter_none; [done|].
  intros t (-> & Hid & Hne). by destruct Hnot.
Qed.

Lemma unk_counter_counts_substitutions_witness :
  Counter_get (unk_counter (bin_loop (Dictionary_new 0) true
                              [lit "a <unk> a" ++ NEWLINE; lit "<s> a" ++ NEWLINE]))
              (lit "<s>") = 0.
Proof.
  apply (proj2 (proj2 (unk_counter_counts_substitutions (Dictionary_new 0) true
                         [lit "a <unk> a" ++ NEWLINE; lit "<s> a" ++ NEWLINE]
                         (lit "<s>")))).
  left. by vm_compute.
Defined.

(** The scenario of the specification: after the corpus "a a a", "b b",
    "c" and [finalize] with threshold 2, the line "a b c" binarizes to the
    ids of a and b, the unknown id and the end-of-sequence id, and one
    substitution is recorded, for "c". *)
Example binarize_scenario :
  let run :=
    d ← build_bpe_dictionary (lit "train.bpe.de");
    finalize d 2 (-1) in
  let st := State (<[lit "train.bpe.de" :=
                       Text [lit "a a a" ++ NEWLINE; lit "b b" ++ NEWLINE;
                             lit "c" ++ NEWLINE]]> ∅) 0 in
  ∃ d, outcome run st = Ok d ∧
       binarized_line d true (lit "a b c") =
         [Dictionary_lookup d (lit "a"); Dictionary_lookup d (lit "b");
          unk_idx d; eos_idx d] ∧
       Dictionary_lookup d (lit "a") ≠ unk_idx d ∧
       Dictionary_lookup d (lit "b") ≠ unk_idx d ∧
       map_to_list (unk_counter (bin_loop d true [lit "a b c" ++ NEWLINE]))
         = [(lit "c", 1)].
Proof. eexists. split; [by vm_compute|]. by vm_compute. Qed.

(** ** The monitor of the Dictionary life cycle *)

Lemma monitor_app m tr1 tr2 :
  monitor m (tr1 ++ tr2) =
  match monitor m tr1 with
  | Some m' => monitor m' tr2
  | None => None
  end.
Proof.
  revert m. induction tr1 as [|ev tr1 IH]; intros m; simpl; [done|].
  by destruct (monitor_step m ev).
Qed.

Lemma monitor_step_finalized m ev m' d :
  monitor_step m ev = Some m' → m !! d = Some Finalized →
  m' !! d = Some Finalized ∧ is_finalize d ev = false ∧ is_add_word d ev = false.
Proof.
  intros Hstep Hd. destruct ev as [d0|d0 w|d0 thr nw|d0 p|d0 i o|i ns nt pc]; simpl in *.
  - destruct (m !! d0) eqn:E; [done|]. injection Hstep as <-.
    rewrite lookup_insert_ne; [done|]. intros ->. congruence.
  - destruct (m !! d0) as [[]|] eqn:E; try done. injection Hstep as <-.
    split_and!; try done. apply bool_decide_eq_false_2. intros ->. congruence.
  - destruct (m !! d0) as [[]|] eqn:E; try done. injection Hstep as <-.
    assert (d0 ≠ d) by (intros ->; congruence).
    rewrite lookup_insert_ne by done. split_and!; try done.
    by apply bool_decide_eq_false_2.
  - by injection Hstep as <-.
  - destruct (m !! d0) as [[]|] eqn:E; try done. by injection Hstep as <-.
  - by injection Hstep as <-.
Qed.

Lemma monitor_step_not_finalized m ev m' d :
  monitor_step m ev = Some m' → m !! d ≠ Some Finalized →
  is_finalize d ev = false → m' !! d ≠ Some Finalized.
Proof.
  intros Hstep Hd Hev.
  destruct ev as [d0|d0 w|d0 thr nw|d0 p|d0 i o|i ns nt pc]; simpl in *.
  - destruct (m !! d0) eqn:E; [done|]. injection Hstep as <-.
    destruct (decide (d0 = d)) as [->|Hne].
    + by rewrite lookup_insert_eq.
    + by rewrite lookup_insert_ne.
  - destruct (m !! d0) as [[]|] eqn:E; try done. by injection Hstep as <-.
  - destruct (m !! d0) as [[]|] eqn:E; try done. injection Hstep as <-.
    apply bool_decide_eq_false in Hev. by rewrite lookup_insert_ne.
  - by injection Hstep as <-.
  - destruct (m !! d0) as [[]|] eqn:E; try done. by injection Hstep as <-.
  - by injection Hstep as <-.
Qed.

(** Once finalized, a dictionary sees neither [finalize] nor [add_word]. *)
Lemma monitor_finalized m tr m' d :
  monitor m tr = Some m' → m !! d = Some Finalized →
  Forall (λ ev, is_finalize d ev = false) tr ∧
  Forall (λ ev, is_add_word d ev = false) tr.
Proof.
  revert m. induction tr as [|ev tr IH]; intros m Hmon Hd; [by split|].
  simpl in Hmon. destruct (monitor_step m ev) as [m1|] eqn:Hstep; [|done].
  destruct (monitor_step_finalized _ _ _ _ Hstep Hd) as (Hd1 & Hf & Ha).
  destruct (IH m1 Hmon Hd1) as [IH1 IH2]. split; by constructor.
Qed.

(** A dictionary becomes finalized by one call of [finalize]. *)
Lemma monitor_reaches_finalized m tr m' d :
  monitor m tr = Some m' → m !! d ≠ Some Finalized → m' !! d = Some Finalized →
  ∃ tr1 tr2 threshold num_words,
    tr = tr1 ++ Call_finalize d threshold num_words :: tr2 ∧
    Forall (λ ev, is_finalize d ev = false) (tr1 ++ tr2) ∧
    Forall (λ ev, is_add_word d ev = false) tr2.
Proof.
  revert m. induction tr as [|ev tr IH]; intros m Hmon Hd Hd'.
  - simpl in Hmon. injection Hmon as <-. done.
  - simpl in Hmon. destruct (monitor_step m ev) as [m1|] eqn:Hstep; [|done].
    destruct (is_finalize d ev) eqn:Hev.
    + destruct ev as [d0|d0 w|d0 thr nw|d0 p|d0 i o|i ns nt pc]; try done.
      simpl in Hev. apply bool_decide_eq_true in Hev as ->.
      simpl in Hstep. destruct (m !! d) as [[]|] eqn:E; try done.
      injection Hstep as <-.
      destruct (monitor_finalized _ _ _ d Hmon) as [H1 H2];
        [by rewrite lookup_insert_eq|].
      by exists [], tr, thr, nw.
    + pose proof (monitor_step_not_finalized _ _ _ _ Hstep Hd Hev) as Hd1.
      destruct (IH m1 Hmon Hd1 Hd') as (tr1 & tr2 & thr & nw & -> & H1 & H2).
      exists (ev :: tr1), tr2, thr, nw. split_and!; [done| |done].
      by constructor.
Qed.

(** A trace the monitor accepts obeys the discipline. *)
Lemma monitor_discipline tr m :
  monitor ∅ tr = Some m → finalize_discipline tr.
Proof.
  intros Hmon pre post d input_file output_file ->.
  rewrite monitor_app in Hmon.
  destruct (monitor ∅ pre) as [m1|] eqn:Hpre; [|done].
  simpl in Hmon. destruct (m1 !! d) as [[]|] eqn:Hd; try done.
  destruct (monitor_reaches_finalized _ _ _ d Hpre) as (tr1 & tr2 & thr & nw & -> & H1 & H2);
    [by rewrite lookup_empty|done|].
  destruct (monitor_finalized _ _ _ d Hmon Hd) as [H3 H4].
  exists tr1, tr2, thr, nw. split_and!; [done| |].
  - apply Forall_app in H1 as [? ?]. by repeat (apply Forall_app; split).
  - by apply Forall_app.
Qed.

(** ** Rules for monitored computations *)

Lemma monitored_ret {A} (a : A) st m (Q : A → state → gmap nat phase → Prop) :
  fresh m st → Q a st m → monitored (mret a) st m Q.
Proof.
  intros Hfresh HQ. exists m. split_and!; [done|done|].
  intros a' Ha. by injection Ha as <-.
Qed.

Lemma monitored_bind {A B} (c : M A) (k : A → M B) st m
    (Q1 : A → state → gmap nat phase → Prop)
    (Q2 : B → state → gmap nat phase → Prop) :
  monitored c st m Q1 →
  (∀ a st' m', Q1 a st' m' → fresh m' st' → monitored (k a) st' m' Q2) →
  monitored (c ≫= k) st m Q2.
Proof.
  intros (m1 & Hmon & Hfresh & HQ1) Hk.
  unfold monitored, trace, final, outcome, mbind, M_bind in *.
  destruct (c st) as [[[a|e] st1] evs1]; simpl in *.
  - destruct (Hk a st1 m1 (HQ1 a eq_refl) Hfresh) as (m2 & Hmon2 & Hfresh2 & HQ2).
    destruct (k a st1) as [[r2 st2] evs2]; simpl in *.
    exists m2. rewrite monitor_app, Hmon. done.
  - exists m1. done.
Qed.

Lemma monitored_weaken {A} (c : M A) st m
    (Q Q' : A → state → gmap nat phase → Prop) :
  monitored c st m Q → (∀ a st' m', Q a st' m' → Q' a st' m') →
  monitored c st m Q'.
Proof. intros (m1 & ? & ? & HQ) Himp. exists m1. naive_solver. Qed.

Lemma monitored_for_each {A} (l : list A) (body : A → M unit)
    (I : state → gmap nat phase → Prop) st m :
  (∀ x st m, I st m → fresh m st → monitored (body x) st m (λ _, I)) →
  I st m → fresh m st → monitored (for_each l body) st m (λ _, I).
Proof.
  intros Hbody. revert st m. induction l as [|x l IH]; intros st m HI Hfresh; simpl.
  - by apply monitored_ret.
  - eapply monitored_bind; [by apply Hbody|]. intros [] st' m' HI' Hfresh'. by apply IH.
Qed.

Lemma monitored_for_fold {A B} (l : list A) (body : B → A → M B)
    (I : B → state → gmap nat phase → Prop) acc st m :
  (∀ acc x st m, I acc st m → fresh m st → monitored (body acc x) st m I) →
  I acc st m → fresh m st → monitored (for_fold l body acc) st m I.
Proof.
  intros Hbody. revert acc st m.
  induction l as [|x l IH]; intros acc st m HI Hfresh; simpl.
  - by apply monitored_ret.
  - eapply monitored_bind; [by apply Hbody|]. intros acc' st' m' HI' Hfresh'. by apply IH.
Qed.

(** A step that emits no event and constructs no object. *)
Lemma monitored_silent {A} (c : M A) st m :
  fresh m st → trace c st = [] → next_oid (final c st) = next_oid st →
  monitored c st m (λ _ st' m', m' = m ∧ next_oid st' = next_oid st).
Proof.
  intros Hfresh Htr Hoid. exists m. rewrite Htr. split_and!; [done| |done].
  intros d Hd. apply Hfresh. by rewrite <- Hoid.
Qed.

Lemma monitored_emit ev st m m1 :
  fresh m1 st → monitor_step m ev = Some m1 →
  monitored (emit ev) st m (λ _ st' m', m' = m1 ∧ st' = st).
Proof.
  intros Hfresh Hstep. exists m1. unfold trace, final, outcome, emit. simpl.
  by rewrite Hstep.
Qed.

Lemma fresh_known m st d p : fresh m st → m !! d = Some p → (d < next_oid st)%nat.
Proof.
  intros Hfresh Hd. destruct (Nat.lt_ge_cases d (next_oid st)) as [|Hge]; [done|].
  apply Hfresh in Hge. congruence.
Qed.

Lemma fresh_insert m st d p p' :
  fresh m st → m !! d = Some p → fresh (<[d := p']> m) st.
Proof.
  intros Hfresh Hd d' Hd'. rewrite lookup_insert_ne; [by apply Hfresh|].
  intros ->. apply Hfresh in Hd'. congruence.
Qed.

(** ** The calls of the scripts, monitored *)

Lemma monitored_new_Dictionary st m :
  fresh m st →
  monitored new_Dictionary st m
    (λ d st' m', m' !! oid d = Some Populating ∧ finalized d = false).
Proof.
  intros Hfresh. exists (<[next_oid st := Populating]> m).
  unfold trace, final, outcome, new_Dictionary. simpl.
  rewrite (Hfresh (next_oid st)) by done. split_and!; [done| |].
  - intros d Hd. simpl in Hd. rewrite lookup_insert_ne by lia. apply Hfresh. lia.
  - intros d Hd. injection Hd as <-. simpl. by rewrite lookup_insert_eq.
Qed.

Lemma monitored_read_lines path st m :
  fresh m st →
  monitored (read_lines path) st m (λ _ st' m', m' = m ∧ next_oid st' = next_oid st).
Proof.
  intros Hfresh. apply monitored_silent; [done|..];
    unfold trace, final, read_lines; by destruct (files st !! path) as [[]|].
Qed.

Lemma monitored_lift_result {A} (r : result A) st m :
  fresh m st →
  monitored (lift_result r) st m (λ a st' m', m' = m ∧ st' = st ∧ r = Ok a).
Proof.
  intros Hfresh. exists m. unfold trace, final, outcome, lift_result. simpl.
  split_and!; [done|done|]. by intros a ->.
Qed.

Lemma Dictionary_add_word_oid d w d' :
  Dictionary_add_word d w = Ok d' → oid d' = oid d ∧ finalized d' = false.
Proof.
  unfold Dictionary_add_word. destruct (finalized d); [done|].
  destruct (index d !! w); intros H; by injection H as <-.
Qed.

Lemma monitored_add_word d w st m :
  fresh m st → m !! oid d = Some Populating →
  monitored (add_word d w) st m
    (λ d' st' m', m' !! oid d' = Some Populating).
Proof.
  intros Hfresh Hd. unfold add_word.
  eapply monitored_bind.
  - apply (monitored_emit _ _ _ m); [done|]. simpl. by rewrite Hd.
  - intros _ st' m' [-> ->] _.
    eapply monitored_weaken; [by apply monitored_lift_result|].
    intros d' st' m' (-> & -> & Hadd). simpl.
    apply Dictionary_add_word_oid in Hadd as [-> _]. done.
Qed.

Lemma monitored_build_bpe_dictionary path st m :
  fresh m st →
  monitored (build_bpe_dictionary path) st m
    (λ d st' m', m' !! oid d = Some Populating).
Proof.
  intros Hfresh. unfold build_bpe_dictionary.
  eapply monitored_bind; [by apply monitored_new_Dictionary|].
  intros d st1 m1 [Hd _] Hfresh1.
  eapply monitored_bind; [by apply monitored_read_lines|].
  intros lines st2 m2 [-> _] Hfresh2.
  apply (monitored_for_fold _ _ (λ d st' m', m' !! oid d = Some Populating));
    [|done|done].
  intros acc line st3 m3 Hacc Hfresh3.
  apply (monitored_for_fold _ _ (λ d st' m', m' !! oid d = Some Populating));
    [|done|done].
  intros acc' w st4 m4 Hacc' Hfresh4. by apply monitored_add_word.
Qed.

Lemma Dictionary_finalize_oid d threshold num_words d' :
  Dictionary_finalize d threshold num_words = Ok d' → oid d' = oid d.
Proof.
  unfold Dictionary_finalize. destruct (finalized d); [done|].
  intros H. by injection H as <-.
Qed.

Lemma monitored_finalize d threshold num_words st m :
  fresh m st → m !! oid d = Some Populating →
  monitored (finalize d threshold num_words) st m
    (λ d' st' m', m' !! oid d' = Some Finalized).
Proof.
  intros Hfresh Hd. unfold finalize.
  eapply monitored_bind.
  - apply (monitored_emit _ _ _ (<[oid d := Finalized]> m)).
    + by eapply fresh_insert.
    + simpl. by rewrite Hd.
  - intros _ st' m' [-> ->] _.
    eapply monitored_weaken; [apply monitored_lift_result; by eapply fresh_insert|].
    intros d' st' m' (-> & -> & Hfin). simpl.
    apply Dictionary_finalize_oid in Hfin as ->. by rewrite lookup_insert_eq.
Qed.

Lemma monitored_write m st (c : M unit) fs :
  fresh m st → c st = (Ok tt, State fs (next_oid st), []) →
  monitored c st m (λ _ st' m', m' = m ∧ next_oid st' = next_oid st).
Proof.
  intros Hfresh Hc. apply monitored_silent; [done|..]; unfold trace, final;
    by rewrite Hc.
Qed.

Lemma monitored_save d path st m :
  fresh m st →
  monitored (save d path) st m (λ _ st' m', m' = m).
Proof.
  intros Hfresh. unfold save.
  eapply monitored_bind; [by apply (monitored_emit _ _ _ m)|].
  intros _ st' m' [-> ->] _.
  eapply monitored_weaken; [by eapply monitored_write|]. by intros [] ? ? [-> _].
Qed.

Lemma monitored_make_binary_dataset quiet input_file output_file d tokenize append_eos st m :
  fresh m st → m !! oid d = Some Finalized →
  monitored (make_binary_dataset quiet input_file output_file d tokenize append_eos)
    st m (λ _ st' m', m' = m).
Proof.
  intros Hfresh Hd. unfold make_binary_dataset.
  eapply monitored_bind.
  { apply (monitored_emit _ _ _ m); [done|]. simpl. by rewrite Hd. }
  intros [] st1 m1 [-> ->] _.
  eapply monitored_bind; [by apply monitored_read_lines|].
  intros lines st2 m2 [-> Hoid] Hfresh2. simpl.
  eapply monitored_bind; [by eapply monitored_write|].
  intros [] st3 m3 [-> Hoid3] Hfresh3.
  destruct quiet; [by apply monitored_ret|].
  eapply monitored_bind; [by apply monitored_lift_result|].
  intros pct st4 m4 (-> & -> & _) _.
  eapply monitored_weaken; [by apply (monitored_emit _ _ _ m)|].
  by intros [] ? ? [-> _].
Qed.

Lemma monitored_run_segmentation segment a st m :
  fresh m st →
  monitored (run_segmentation segment a) st m (λ _ st' m', m' = m).
Proof.
  intros Hfresh.
  eapply monitored_weaken; [apply monitored_silent; [done|..]|by intros [] ? ? [-> _]];
    unfold trace, final, run_segmentation; by destruct (segment a (files st)).
Qed.

(** Every run of [BPE_preprocess.main], completed or interrupted by an
    exception, obeys the discipline: a dictionary is binarized against only
    after its single [finalize], which follows all its [add_word]. *)
Theorem BPE_preprocess_main_finalizes (segment : segmentation) (a : args) (st : state) :
  finalize_discipline (trace (BPE_preprocess.main segment a) st).
Proof.
  assert (monitored (BPE_preprocess.main segment a) st ∅ (λ _ _ _, True))
    as (m & Hmon & _); [|by eapply monitor_discipline].
  unfold BPE_preprocess.main.
  eapply monitored_bind; [by apply monitored_run_segmentation|].
  intros [] st1 m1 -> Hfresh1.
  apply (monitored_for_each _ _ (λ _ _, True)); [|done|done].
  intros lang st2 m2 _ Hfresh2.
  eapply monitored_bind; [by apply monitored_build_bpe_dictionary|].
  intros d st3 m3 Hd Hfresh3.
  eapply monitored_bind; [by apply monitored_finalize|].
  intros d' st4 m4 Hd' Hfresh4.
  eapply monitored_bind; [by apply monitored_save|].
  intros [] st5 m5 -> Hfresh5.
  eapply monitored_weaken;
    [apply (monitored_for_each _ _ (λ _ m', m' !! oid d' = Some Finalized));
       [|done|done]|done].
  intros split st6 m6 Hd6 Hfresh6.
  eapply monitored_weaken; [by apply monitored_make_binary_dataset|].
  by intros [] ? ? ->.
Qed.

(** ** [BPEPreprocess.main] never finalizes *)

Lemma emits_bind {A B} P (c : M A) (k : A → M B) :
  emits P c → (∀ a, emits P (k a)) → emits P (c ≫= k).
Proof.
  intros Hc Hk st. specialize (Hc st).
  unfold trace, mbind, M_bind in *.
  destruct (c st) as [[[a|e] st1] evs1]; simpl in *; [|done].
  specialize (Hk a st1). unfold trace in Hk.
  destruct (k a st1) as [[r2 st2] evs2]; simpl in *. by apply Forall_app.
Qed.

Lemma emits_silent {A} P (c : M A) : (∀ st, trace c st = []) → emits P c.
Proof. intros Hc st. by rewrite Hc. Qed.

Lemma emits_emit P ev : P ev → emits P (emit ev).
Proof. intros Hev st. by repeat constructor. Qed.

Lemma emits_for_each {A} P (l : list A) (body : A → M unit) :
  (∀ x, emits P (body x)) → emits P (for_each l body).
Proof.
  intros Hbody. induction l as [|x l IH]; simpl.
  - by apply emits_silent.
  - apply emits_bind; [done|]. by intros _.
Qed.

Lemma emits_for_fold {A B} P (l : list A) (body : B → A → M B) acc :
  (∀ acc x, emits P (body acc x)) → emits P (for_fold l body acc).
Proof.
  intros Hbody. revert acc. induction l as [|x l IH]; intros acc; simpl.
  - by apply emits_silent.
  - apply emits_bind; [done|]. intros acc'. apply IH.
Qed.

Lemma emits_read_lines P path : emits P (read_lines path).
Proof.
  apply emits_silent. intros st. unfold trace, read_lines.
  by destruct (files st !! path) as [[]|].
Qed.

Lemma build_bpe_dictionary_not_finalize path :
  emits not_finalize (build_bpe_dictionary path).
Proof.
  unfold build_bpe_dictionary. apply emits_bind.
  { intros st. by repeat constructor. }
  intros d. apply emits_bind; [apply emits_read_lines|].
  intros lines. apply emits_for_fold. intros acc line.
  apply emits_for_fold. intros acc' w. unfold add_word.
  apply emits_bind; [by apply emits_emit|]. intros _. by apply emits_silent.
Qed.

Lemma make_binary_dataset_not_finalize quiet input_file output_file d tokenize append_eos :
  emits not_finalize
    (make_binary_dataset quiet input_file output_file d tokenize append_eos).
Proof.
  unfold make_binary_dataset.
  apply emits_bind; [by apply emits_emit|]. intros _.
  apply emits_bind; [apply emits_read_lines|]. intros lines.
  apply emits_bind; [by apply emits_silent|]. intros _.
  destruct quiet; [by apply emits_silent|].
  apply emits_bind; [by apply emits_silent|]. intros pct. by apply emits_emit.
Qed.

Lemma BPEPreprocess_main_not_finalize segment a :
  emits not_finalize (BPEPreprocess.main segment a).
Proof.
  unfold BPEPreprocess.main. apply emits_bind.
  { apply emits_silent. intros st. unfold trace, run_segmentation.
    by destruct (segment a (files st)). }
  intros _. apply emits_for_each. intros lang.
  apply emits_bind; [apply build_bpe_dictionary_not_finalize|]. intros d.
  apply emits_bind.
  { unfold save. apply emits_bind; [by apply emits_emit|]. intros _.
    by apply emits_silent. }
  intros _. apply emits_for_each. intros split.
  apply make_binary_dataset_not_finalize.
Qed.

(** C1 (the code departs from it). No run of [BPEPreprocess.main] ever
    calls [finalize]: on the corpus [demo_files] it builds the two
    dictionaries, saves them and binarizes the eight files to the end, so
    that every split is binarized against a dictionary that has not been
    finalized, and the discipline fails. ([BPE_preprocess.main] obeys it,
    see [BPE_preprocess_main_finalizes].) *)
Theorem BPEPreprocess_main_never_finalizes :
  (∀ segment a st, Forall not_finalize (trace (BPEPreprocess.main segment a) st)) ∧
  outcome (BPEPreprocess.main segmented demo_args) (State demo_files 0) = Ok tt ∧
  length (filter (λ ev, is_make_binary_dataset ev = true)
            (trace (BPEPreprocess.main segmented demo_args) (State demo_files 0)))
    = 8%nat ∧
  ¬ finalize_discipline
      (trace (BPEPreprocess.main segmented demo_args) (State demo_files 0)).
Proof.
  split_and!.
  - intros segment a st. apply BPEPreprocess_main_not_finalize.
  - by vm_compute.
  - by vm_compute.
  - intros Hdisc.
    pose proof (BPEPreprocess_main_not_finalize segmented demo_args
                  (State demo_files 0)) as Hnone.
    remember (trace (BPEPreprocess.main segmented demo_args) (State demo_files 0))
      as tr eqn:Htr.
    assert (∃ pre post, tr = pre ++ Call_make_binary_dataset 0
              (lit "data-bin/train.bpe.de") (lit "data-bin/train.bin.de") :: post)
      as (pre & post & Hsplit).
    { exists (take 5 tr), (drop 6 tr). rewrite Htr. by vm_compute. }
    destruct (Hdisc _ _ _ _ _ Hsplit) as (tr1 & tr2 & thr & nw & -> & _).
    rewrite Hsplit in Hnone.
    apply Forall_app in Hnone as [Hnone _]. apply Forall_app in Hnone as [_ Hnone].
    by inversion Hnone.
Qed.

(* ================================================================== *)
(** * Further properties of the scripts *)
(* ================================================================== *)

(** ** [word_tokenize] *)

Lemma concat_split_go cur s :
  concat (split_go cur s) = rev cur ++ filter (λ c, isspace c = false) s.
Proof.
  revert cur. induction s as [|c s IH]; intros cur.
  - simpl. destruct cur as [|x cur]; [done|]. simpl. by rewrite !app_nil_r.
  - simpl. rewrite filter_cons. destruct (isspace c) eqn:Hc.
    + rewrite decide_False by done. rewrite concat_app, IH. simpl.
      destruct cur as [|x cur]; [done|]. simpl. by rewrite !app_nil_r.
    + rewrite decide_True by done. rewrite IH. simpl. by rewrite <- app_assoc.
Qed.

(** X1. Tokenization loses whitespace and nothing else: the characters of
    the tokens, taken in order, are the characters of the line that are not
    whitespace. *)
Theorem word_tokenize_keeps_characters (line : pystr) :
  concat (word_tokenize line) = filter (λ c, isspace c = false) line.
Proof. rewrite word_tokenize_split. apply concat_split_go. Qed.

(** X2. A line has no token exactly when it is blank (empty or made of
    whitespace only). *)
Theorem word_tokenize_nil_iff (line : pystr) :
  word_tokenize line = [] ↔ all_space line.
Proof.
  rewrite word_tokenize_split. split.
  - intros Hnil.
    destruct (str_cases line) as [Hs|(ws & w & r & -> & Hws & Hw & Hr)]; [done|].
    rewrite str_split_spaces in Hnil by done.
    destruct Hr as [->|(c & r' & -> & Hc)].
    + rewrite app_nil_r, str_split_word_end in Hnil by done. done.
    + rewrite str_split_word_space in Hnil by done. done.
  - apply str_split_all_space.
Qed.

Lemma split_go_app_space cur a c b :
  isspace c = true →
  split_go cur (a ++ c :: b) = split_go cur a ++ split_go [] b.
Proof.
  intros Hc. revert cur. induction a as [|x a IH]; intros cur; simpl.
  - by rewrite Hc.
  - destruct (isspace x); [|done]. by rewrite IH, app_assoc.
Qed.

(** X3. The tokens of two texts put together with a whitespace character
    between them are the tokens of the first followed by the tokens of the
    second: no token spans the whitespace, none is lost. *)
Theorem word_tokenize_app (a b : pystr) (c : ascii) :
  isspace c = true →
  word_tokenize (a ++ c :: b) = word_tokenize a ++ word_tokenize b.
Proof.
  intros Hc. rewrite !word_tokenize_split. by apply split_go_app_space.
Qed.

Lemma word_tokenize_app_witness :
  word_tokenize (lit "ab c" ++ "009"%char :: lit " d") =
  word_tokenize (lit "ab c") ++ word_tokenize (lit " d").
Proof. apply (word_tokenize_app (lit "ab c") (lit " d") "009"%char). reflexivity. Defined.

(** X4. Tokenizing inverts joining: tokens joined by single spaces, with or
    without the line terminator, tokenize back to themselves. In particular
    tokenizing the joined tokens of a line gives the tokens of the line. *)
Theorem word_tokenize_join (tokens : list pystr) :
  Forall is_token tokens →
  word_tokenize (str_join (lit " ") tokens) = tokens ∧
  word_tokenize (str_join (lit " ") tokens ++ NEWLINE) = tokens.
Proof.
  intros Htok. rewrite !word_tokenize_split. split.
  - by apply str_split_join.
  - rewrite str_split_trailing_spaces by (by repeat constructor).
    by apply str_split_join.
Qed.

Lemma word_tokenize_join_witness :
  word_tokenize (str_join (lit " ") [lit "lo@@"; lit "w"; lit "</w>"] ++ NEWLINE)
  = [lit "lo@@"; lit "w"; lit "</w>"].
Proof.
  apply (proj2 (word_tokenize_join [lit "lo@@"; lit "w"; lit "</w>"]
                  ltac:(repeat constructor; done))).
Defined.

(** ** The Vocabulary Filter, line by line *)

Lemma filter_word_idempotent vocab threshold w :
  filter_word vocab threshold (filter_word vocab threshold w)
  = filter_word vocab threshold w.
Proof.
  unfold filter_word.
  destruct (bool_decide (threshold ≤ default 0 (vocab !! w))) eqn:E.
  - by rewrite E.
  - clear E. by case_bool_decide.
Qed.

(** X5. Filtering is idempotent: a line the filter has written is left as
    it is by a second pass with the same table and threshold. *)
Theorem filter_line_idempotent
    (vocab : gmap (list ascii) Z) (threshold : Z) (bpe_line : pystr) :
  filter_line vocab threshold (filter_line vocab threshold bpe_line)
  = filter_line vocab threshold bpe_line.
Proof.
  unfold filter_line at 1. rewrite filter_line_split.
  rewrite <- list_fmap_compose. unfold filter_line. do 2 f_equal.
  apply list_fmap_ext. intros i w _. apply filter_word_idempotent.
Qed.

(** X6. Raising the threshold never restores a token: a position that
    holds the sentinel under a threshold holds it under every larger one. *)
Theorem filter_line_threshold_monotone
    (vocab : gmap (list ascii) Z) (t1 t2 : Z) (bpe_line : pystr) (i : nat) :
  t1 ≤ t2 →
  str_split (filter_line vocab t1 bpe_line) !! i = Some LOW_FREQUENCY_SENTINEL →
  str_split (filter_line vocab t2 bpe_line) !! i = Some LOW_FREQUENCY_SENTINEL.
Proof.
  intros Hle. rewrite !filter_line_split, !list_lookup_fmap.
  destruct (str_split bpe_line !! i) as [w|]; [|done]. simpl.
  intros H. injection H as H. f_equal. revert H. unfold filter_word.
  repeat case_bool_decide; try done. lia.
Qed.

Lemma filter_line_threshold_monotone_witness :
  str_split (filter_line (<[lit "x" := 5]> (<[lit "y" := 1]> ∅)) 7 (lit "x y x"))
    !! 1%nat = Some LOW_FREQUENCY_SENTINEL.
Proof.
  apply (filter_line_threshold_monotone (<[lit "x" := 5]> (<[lit "y" := 1]> ∅))
           2 7 (lit "x y x") 1); [lia|by vm_compute].
Defined.

(** X7. With a threshold of at least 1 the filtered text has a closed
    vocabulary: every token of a written line is the sentinel or a symbol
    the table records with a frequency of at least the threshold. *)
Theorem filter_line_closed_vocabulary
    (vocab : gmap (list ascii) Z) (threshold : Z) (bpe_line : pystr) :
  1 ≤ threshold →
  Forall (λ w, w = LOW_FREQUENCY_SENTINEL ∨
               ∃ n, vocab !! w = Some n ∧ threshold ≤ n)
         (str_split (filter_line vocab threshold bpe_line)).
Proof.
  intros Hthr. rewrite filter_line_split. apply Forall_fmap, Forall_forall.
  intros w _. simpl. unfold filter_word. case_bool_decide as E; [|by left].
  right. destruct (vocab !! w) as [n|]; simpl in E; [by exists n|lia].
Qed.

Lemma filter_line_closed_vocabulary_witness :
  Forall (λ w, w = LOW_FREQUENCY_SENTINEL ∨
               ∃ n, (<[lit "x" := 5]> (<[lit "y" := 1]> ∅) : gmap (list ascii) Z) !! w
                    = Some n ∧ 2 ≤ n)
         (str_split (filter_line (<[lit "x" := 5]> (<[lit "y" := 1]> ∅)) 2
                       (lit "x y z"))).
Proof.
  apply (filter_line_closed_vocabulary (<[lit "x" := 5]> (<[lit "y" := 1]> ∅)) 2
           (lit "x y z")). lia.
Defined.

(** ** Loading the vocabulary listing *)

Lemma load_vocab_app vocab lines1 lines2 :
  load_vocab vocab (lines1 ++ lines2) =
  match load_vocab vocab lines1 with
  | Ok vocab' => load_vocab vocab' lines2
  | Raise e => Raise e
  end.
Proof.
  revert vocab. induction lines1 as [|l lines1 IH]; intros vocab; simpl; [done|].
  destruct (parse_vocab_line l) as [[w n]|e]; [apply IH|done].
Qed.

Lemma well_formed_vocab_line_parse line :
  well_formed_vocab_line line = true ↔ ∃ w n, parse_vocab_line line = Ok (w, n).
Proof.
  unfold well_formed_vocab_line, parse_vocab_line.
  destruct (str_split (str_strip line)) as [|w [|f [|? ?]]];
    try (split; [done|by intros (? & ? & ?)]).
  destruct (py_int f) as [n|] eqn:E.
  - split; [eauto|]. intros _. apply bool_decide_eq_true. eauto.
  - split; [|by intros (? & ? & ?)].
    intros H. apply bool_decide_eq_true in H as [n Hn]. done.
Qed.

(** X8. The listing loads exactly when every line is well formed: two
    fields, of which the second is an integer literal. One malformed line,
    a blank line included, makes the load fail. *)
Theorem load_vocab_ok_iff (vocab : gmap (list ascii) Z) (lines : list pystr) :
  (∃ vocab', load_vocab vocab lines = Ok vocab') ↔
  Forall (λ l, well_formed_vocab_line l = true) lines.
Proof.
  revert vocab. induction lines as [|l lines IH]; intros vocab; simpl.
  - split; [constructor|eauto].
  - split.
    + intros [vocab' H]. destruct (parse_vocab_line l) as [[w n]|e] eqn:E; [|done].
      constructor.
      * apply well_formed_vocab_line_parse. eauto.
      * apply (IH (<[w := n]> vocab)). eauto.
    + intros H. inversion H as [|? ? Hl Hrest]; subst.
      apply well_formed_vocab_line_parse in Hl as (w & n & ->).
      by apply IH.
Qed.

Lemma load_vocab_other vocab lines vocab' word :
  load_vocab vocab lines = Ok vocab' →
  Forall (λ l, ∀ n, parse_vocab_line l ≠ Ok (word, n)) lines →
  vocab' !! word = vocab !! word.
Proof.
  revert vocab. induction lines as [|l lines IH]; intros vocab Hload Hno; simpl in *.
  - by injection Hload as <-.
  - inversion Hno as [|? ? Hl Hrest]; subst.
    destruct (parse_vocab_line l) as [[w n]|e] eqn:E; [|done].
    rewrite (IH _ Hload Hrest). apply lookup_insert_ne. intros ->. by eapply Hl.
Qed.

(** X9. In the loaded table a symbol has the frequency of the last line
    that lists it, earlier lines for the same symbol being overwritten, and
    a symbol that no line lists has no entry. *)
Theorem load_vocab_last_wins
    (before after : list pystr) (line : pystr) (word : pystr) (freq : Z)
    (vocab : gmap (list ascii) Z) :
  load_vocab ∅ (before ++ line :: after) = Ok vocab →
  (parse_vocab_line line = Ok (word, freq) →
   Forall (λ l, ∀ n, parse_vocab_line l ≠ Ok (word, n)) after →
   vocab !! word = Some freq) ∧
  (Forall (λ l, ∀ n, parse_vocab_line l ≠ Ok (word, n)) (before ++ line :: after) →
   vocab !! word = None).
Proof.
  intros Hload. split.
  - intros Hline Hafter. rewrite load_vocab_app in Hload.
    destruct (load_vocab ∅ before) as [v1|e]; [|done].
    simpl in Hload. rewrite Hline in Hload.
    rewrite (load_vocab_other _ _ _ _ Hload Hafter). apply lookup_insert_eq.
  - intros Hno. by rewrite (load_vocab_other _ _ _ _ Hload Hno).
Qed.

Lemma load_vocab_last_wins_witness :
  ∃ vocab,
    load_vocab ∅ [lit "x 5" ++ NEWLINE; lit "y 1" ++ NEWLINE; lit "x 7" ++ NEWLINE]
      = Ok vocab ∧
    vocab !! lit "x" = Some 7.
Proof.
  eexists. split; [reflexivity|].
  refine (proj1 (load_vocab_last_wins [lit "x 5" ++ NEWLINE; lit "y 1" ++ NEWLINE] []
                   (lit "x 7" ++ NEWLINE) (lit "x") 7 _ _) _ _);
    [reflexivity|reflexivity|constructor].
Defined.

(** ** The counts and the summary of [make_binary_dataset] *)

Lemma binarized_lines_length d append_eos lines :
  Z.of_nat (length (concat (binarized_line d append_eos <$> lines))) =
  Z.of_nat (length (file_tokens lines))
  + (if append_eos then Z.of_nat (length lines) else 0).
Proof.
  unfold file_tokens. induction lines as [|l lines IH]; [by destruct append_eos|].
  rewrite !fmap_cons, !concat_cons, !length_app, length_cons.
  unfold binarized_line at 1. rewrite length_app, length_fmap.
  destruct append_eos; simpl length; lia.
Qed.

Lemma Counter_total_update1 c word :
  Counter_total (Counter_update1 c word) = Counter_total c + 1.
Proof.
  unfold Counter_total, Counter_update1, Counter_get.
  assert (∀ (m : gmap (list ascii) Z) n,
            m !! word = None →
            map_fold (λ _ n acc, n + acc) 0 (<[word := n]> m)
            = n + map_fold (λ _ n acc, n + acc) 0 m) as Hins.
  { intros m n Hm. apply (map_fold_insert_L (λ _ n acc, n + acc)); [|done].
    intros. lia. }
  destruct (c !! word) as [v|] eqn:E; simpl.
  - rewrite <- (insert_delete_eq c).
    rewrite <- (insert_delete_id c word v E) at 2.
    rewrite !Hins by apply lookup_delete_eq. lia.
  - rewrite Hins by done. lia.
Qed.

Lemma unk_consumer_total d token c :
  Counter_total (unk_consumer d token (Dictionary_lookup d token) c)
  = Counter_total c + (if decide (unk_substituted d token) then 1 else 0).
Proof.
  unfold unk_consumer, unk_substituted.
  destruct (Z.eqb_spec (Dictionary_lookup d token) (unk_idx d)) as [Hid|Hid]; simpl.
  - case_bool_decide as Hw; simpl.
    + rewrite decide_False by (by intros [_ ?]). lia.
    + rewrite decide_True by done. apply Counter_total_update1.
  - rewrite decide_False by (by intros [? _]). lia.
Qed.

Lemma foldl_unk_consumer_total d c tokens :
  Counter_total
    (foldl (λ c token, unk_consumer d token (Dictionary_lookup d token) c) c tokens)
  = Counter_total c + Z.of_nat (length (filter (unk_substituted d) tokens)).
Proof.
  revert c. induction tokens as [|t tokens IH]; intros c.
  - simpl. lia.
  - change (foldl ?f c (t :: tokens)) with (foldl f (f c t) tokens).
    rewrite IH, unk_consumer_total, filter_cons.
    destruct (decide (unk_substituted d t)); [rewrite length_cons|]; lia.
Qed.

Lemma foldl_bin_step_total d append_eos st lines :
  Counter_total (unk_counter (foldl (bin_step d append_eos) st lines)) =
  Counter_total (unk_counter st)
  + Z.of_nat (length (filter (unk_substituted d) (file_tokens lines))).
Proof.
  revert st. induction lines as [|line lines IH]; intros st.
  - simpl. lia.
  - change (foldl ?f st (line :: lines)) with (foldl f (f st line) lines).
    rewrite IH, bin_step_eq. cbn [unk_counter].
    rewrite foldl_unk_consumer_total. unfold file_tokens.
    rewrite fmap_cons, concat_cons, filter_app, length_app. lia.
Qed.

Lemma bin_loop_total d append_eos lines :
  Counter_total (unk_counter (bin_loop d append_eos lines)) =
  Z.of_nat (length (filter (unk_substituted d) (file_tokens lines))).
Proof.
  unfold bin_loop. rewrite foldl_bin_step_total. by cbn.
Qed.

(** X10. The summary a call emits reports the file: the number of its
    lines, the number of its tokens plus one per line when [append_eos] is
    set, and as percentage 100 times the number of tokens replaced by the
    unknown id over that token count. The replaced tokens are never more
    than the tokens, so the percentage lies between 0 and 100. *)
Theorem make_binary_dataset_summary_counts
    (input_file output_file : pystr) (d : Dictionary)
    (tokenize : pystr → list pystr) (append_eos : bool) (st : state)
    (lines : list pystr) :
  let n := Z.of_nat (length (file_tokens lines))
           + (if append_eos then Z.of_nat (length lines) else 0) in
  let k := Z.of_nat (length (filter (unk_substituted d) (file_tokens lines))) in
  files st !! input_file = Some (Text lines) →
  n ≠ 0 →
  trace (make_binary_dataset false input_file output_file d tokenize append_eos) st
  = [Call_make_binary_dataset (oid d) input_file output_file;
     Logging_info_built input_file (Z.of_nat (length lines)) n
       (QArith_base.Qmake (100 * k) (Z.to_pos n))] ∧
  0 ≤ k ≤ n.
Proof.
  intros n k Hfile Hn. split.
  - unfold trace. rewrite (make_binary_dataset_run false _ _ _ _ _ _ lines Hfile).
    rewrite bin_loop_ntok, bin_loop_nsent, bin_loop_total, binarized_lines_length.
    fold n k. unfold percent. destruct (Z.eqb_spec n 0) as [|_]; [done|].
    assert (0 < n) as Hpos by (unfold n; destruct append_eos; lia).
    simpl. rewrite Z.sgn_pos, Z.abs_eq, Z.mul_1_r by lia. done.
  - unfold k, n. pose proof (length_filter (unk_substituted d) (file_tokens lines)).
    destruct append_eos; lia.
Qed.

Lemma make_binary_dataset_summary_counts_witness :
  trace (make_binary_dataset false (lit "valid.bpe.de") (lit "valid.bin.de")
           (Dictionary_new 0) word_tokenize true)
        (State (<[lit "valid.bpe.de" := Text [lit "<s> a" ++ NEWLINE; NEWLINE]]> ∅) 0)
  = [Call_make_binary_dataset 0 (lit "valid.bpe.de") (lit "valid.bin.de");
     Logging_info_built (lit "valid.bpe.de") 2 4 (QArith_base.Qmake 100 4)].
Proof.
  apply (make_binary_dataset_summary_counts (lit "valid.bpe.de") (lit "valid.bin.de")
           (Dictionary_new 0) word_tokenize true
           (State (<[lit "valid.bpe.de" := Text [lit "<s> a" ++ NEWLINE; NEWLINE]]> ∅) 0)
           [lit "<s> a" ++ NEWLINE; NEWLINE]); [apply lookup_insert_eq|by vm_compute].
Defined.



(** X12. A call touches the output path only: every other file of the
    store, the input file included when it is not the output, is after the
    call what it was before, whether the call returns or raises, and no
    Dictionary is constructed. *)
Theorem make_binary_dataset_frame
    (quiet : bool) (input_file output_file : pystr) (d : Dictionary)
    (tokenize : pystr → list pystr) (append_eos : bool) (st : state)
    (path : pystr) :
  path ≠ output_file →
  let st' := final (make_binary_dataset quiet input_file output_file d tokenize
                      append_eos) st in
  files st' !! path = files st !! path ∧ next_oid st' = next_oid st.
Proof.
  intros Hne st'. unfold st', final.
  destruct (files st !! input_file) as [[lines|obj]|] eqn:E.
  - rewrite (make_binary_dataset_run quiet _ _ _ _ _ _ lines E).
    destruct quiet; [|destruct (percent _ _)]; simpl;
      by rewrite lookup_insert_ne.
  - destruct (make_binary_dataset_unreadable quiet input_file output_file d
                tokenize append_eos st) as [e ->]; [by rewrite E|done].
  - destruct (make_binary_dataset_unreadable quiet input_file output_file d
                tokenize append_eos st) as [e ->]; [by rewrite E|done].
Qed.

Lemma make_binary_dataset_frame_witness :
  let st := State (<[lit "valid.bpe.de" := Text [lit "a" ++ NEWLINE]]> ∅) 0 in
  files (final (make_binary_dataset true (lit "valid.bpe.de") (lit "valid.bin.de")
                  (Dictionary_new 0) word_tokenize true) st) !! lit "valid.bpe.de"
  = Some (Text [lit "a" ++ NEWLINE]).
Proof.
  intros st.
  rewrite (proj1 (make_binary_dataset_frame true (lit "valid.bpe.de")
                    (lit "valid.bin.de") (Dictionary_new 0) word_tokenize true st
                    (lit "valid.bpe.de") ltac:(done))).
  apply lookup_insert_eq.
Defined.

(** ** What [build_bpe_dictionary] feeds the dictionary *)

Lemma Dictionary_add_word_ok d w :
  finalized d = false →
  ∃ d', Dictionary_add_word d w = Ok d' ∧ oid d' = oid d ∧ finalized d' = false.
Proof.
  intros Hfin. unfold Dictionary_add_word. rewrite Hfin.
  destruct (index d !! w); eauto.
Qed.

Lemma add_word_run d w st :
  add_word d w st = (Dictionary_add_word d w, st, [Call_add_word (oid d) w]).
Proof. reflexivity. Qed.

Lemma for_fold_add_word tokens d st :
  finalized d = false →
  ∃ d', for_fold tokens add_word d st
          = (Ok d', st, Call_add_word (oid d) <$> tokens) ∧
        oid d' = oid d ∧ finalized d' = false.
Proof.
  revert d. induction tokens as [|w tokens IH]; intros d Hfin.
  - exists d. by split.
  - destruct (Dictionary_add_word_ok d w Hfin) as (d1 & Hadd & Hoid1 & Hfin1).
    destruct (IH d1 Hfin1) as (d' & Hrun & Hoid & Hfin').
    exists d'. split; [|split; [congruence|done]].
    cbn [for_fold]. unfold mbind, M_bind.
    rewrite add_word_run, Hadd, Hrun, Hoid1. done.
Qed.

Lemma for_fold_lines_add_word lines d st :
  finalized d = false →
  ∃ d', for_fold lines
          (λ dictionary line,
             for_fold (str_split (str_strip line)) add_word dictionary) d st
          = (Ok d', st, Call_add_word (oid d) <$> file_tokens lines) ∧
        oid d' = oid d ∧ finalized d' = false.
Proof.
  revert d. induction lines as [|line lines IH]; intros d Hfin.
  - exists d. by split.
  - destruct (for_fold_add_word (str_split (str_strip line)) d st Hfin)
      as (d1 & Hrun1 & Hoid1 & Hfin1).
    destruct (IH d1 Hfin1) as (d' & Hrun & Hoid & Hfin').
    exists d'. split; [|split; [congruence|done]].
    cbn [for_fold]. unfold mbind, M_bind. rewrite Hrun1, Hrun, Hoid1.
    unfold file_tokens. rewrite fmap_cons, concat_cons, fmap_app.
    by rewrite word_tokenize_split, str_split_strip.
Qed.

(** X13. [build_bpe_dictionary] constructs one Dictionary and calls
    [add_word] on it once for every token of the file, in the order of the
    file, and for nothing else: these are the tokens [word_tokenize] gives
    for the lines, hence the tokens the binarizer reads from the same file.
    The files are left as they are. When the file does not exist, the
    Dictionary has been constructed and [FileNotFoundError] is raised
    before any [add_word]. *)
Theorem build_bpe_dictionary_feeds_tokens (tokenized_file : pystr) (st : state) :
  (∀ lines, files st !! tokenized_file = Some (Text lines) →
     ∃ d, build_bpe_dictionary tokenized_file st =
            (Ok d, State (files st) (S (next_oid st)),
             Call_Dictionary (next_oid st)
             :: (Call_add_word (next_oid st) <$> file_tokens lines)) ∧
          oid d = next_oid st) ∧
  (files st !! tokenized_file = None →
     build_bpe_dictionary tokenized_file st =
       (Raise (FileNotFoundError tokenized_file),
        State (files st) (S (next_oid st)), [Call_Dictionary (next_oid st)])).
Proof.
  split.
  - intros lines Hfile.
    destruct (for_fold_lines_add_word lines (Dictionary_new (next_oid st))
                (State (files st) (S (next_oid st))) eq_refl)
      as (d & Hrun & Hoid & _).
    exists d. split; [|done].
    unfold build_bpe_dictionary, mbind, M_bind, new_Dictionary, read_lines.
    simpl. rewrite Hfile, Hrun. done.
  - intros Hfile.
    unfold build_bpe_dictionary, mbind, M_bind, new_Dictionary, read_lines.
    simpl. by rewrite Hfile.
Qed.

Lemma build_bpe_dictionary_feeds_tokens_witness :
  trace (build_bpe_dictionary (lit "train.bpe.de"))
        (State (<[lit "train.bpe.de" :=
                    Text [lit "a  b" ++ NEWLINE; NEWLINE; lit " a" ++ NEWLINE]]> ∅) 3)
  = [Call_Dictionary 3; Call_add_word 3 (lit "a"); Call_add_word 3 (lit "b");
     Call_add_word 3 (lit "a")].
Proof.
  destruct (proj1 (build_bpe_dictionary_feeds_tokens (lit "train.bpe.de")
                     (State (<[lit "train.bpe.de" :=
                                 Text [lit "a  b" ++ NEWLINE; NEWLINE;
                                       lit " a" ++ NEWLINE]]> ∅) 3))
              _ (lookup_insert_eq _ _ _)) as (d & Hrun & _).
  unfold trace. rewrite Hrun. reflexivity.
Defined.

(** ** Rewriting a file line by line *)

(** The four steps the three rewriting functions share: open the input,
    open (and empty) the output, read the lines, write the rewritten
    lines. *)
Lemma rewrite_file_run (f : pystr → pystr) input_file output_file st :
  (open_read input_file ;;
   write_lines output_file [] ;;
   lines ← read_lines input_file;
   write_lines output_file (f <$> lines)) st =
  match files st !! input_file with
  | None => (Raise (FileNotFoundError input_file), st, [])
  | Some file =>
      if decide (input_file = output_file) then
        (Ok tt, State (<[output_file := Text []]> (files st)) (next_oid st), [])
      else
        match file with
        | Text lines =>
            (Ok tt, State (<[output_file := Text (f <$> lines)]> (files st))
                          (next_oid st), [])
        | Pickle _ =>
            (Raise (UnicodeDecodeError input_file),
             State (<[output_file := Text []]> (files st)) (next_oid st), [])
        end
  end.
Proof.
  unfold mbind, M_bind, open_read, write_lines, read_lines. simpl.
  destruct (files st !! input_file) as [file|] eqn:E; [|done].
  destruct (decide (input_file = output_file)) as [->|Hne].
  - rewrite lookup_insert_eq. simpl. by rewrite insert_insert_eq.
  - rewrite lookup_insert_ne, E by done.
    destruct file as [lines|obj]; simpl; [|done]. by rewrite insert_insert_eq.
Qed.

Lemma apply_bpe_with_vocab_filter_loaded
    bpe input_file output_file vocab_path threshold st vocab_lines vocab :
  files st !! vocab_path = Some (Text vocab_lines) →
  load_vocab ∅ vocab_lines = Ok vocab →
  apply_bpe_with_vocab_filter bpe input_file output_file vocab_path threshold st =
  (open_read input_file ;;
   write_lines output_file [] ;;
   lines ← read_lines input_file;
   write_lines output_file
     ((λ line, filter_line vocab threshold (bpe (str_rstrip line))) <$> lines)) st.
Proof.
  intros Hvocab Hload.
  unfold apply_bpe_with_vocab_filter.
  unfold mbind at 1 2, M_bind at 1 2, read_lines at 1, lift_result.
  rewrite Hvocab, Hload.
  destruct ((open_read input_file ;; _) st) as [[r st'] evs]. done.
Qed.

(** X14. When the listing loads and the input is another file than the
    output, the filter returns and the output file holds one line per input
    line, in the same order: the filtered segmentation of that line. No
    other file is changed. *)
Theorem apply_bpe_with_vocab_filter_writes
    (bpe : pystr → pystr) (input_file output_file vocab_path : pystr)
    (threshold : Z) (st : state) (vocab_lines lines : list pystr)
    (vocab : gmap (list ascii) Z) :
  files st !! vocab_path = Some (Text vocab_lines) →
  load_vocab ∅ vocab_lines = Ok vocab →
  files st !! input_file = Some (Text lines) →
  input_file ≠ output_file →
  let run := apply_bpe_with_vocab_filter bpe input_file output_file vocab_path
               threshold in
  outcome run st = Ok tt ∧
  (∃ written,
     files (final run st) !! output_file = Some (Text written) ∧
     length written = length lines ∧
     ∀ i line, lines !! i = Some line →
       written !! i = Some (filter_line vocab threshold (bpe (str_rstrip line)))) ∧
  (∀ path, path ≠ output_file → files (final run st) !! path = files st !! path).
Proof.
  intros Hvocab Hload Hin Hne run. unfold run, outcome, final.
  rewrite (apply_bpe_with_vocab_filter_loaded _ _ _ _ _ _ _ _ Hvocab Hload).
  rewrite rewrite_file_run, Hin, decide_False by done. simpl.
  split_and!; [done| |].
  - eexists. rewrite lookup_insert_eq. split_and!; [done|by rewrite length_fmap|].
    intros i line Hi. by rewrite list_lookup_fmap, Hi.
  - intros path Hpath. by rewrite lookup_insert_ne.
Qed.

Lemma apply_bpe_with_vocab_filter_writes_witness :
  let st := State (<[lit "vocab.de" := Text [lit "x 5" ++ NEWLINE; lit "y 1" ++ NEWLINE]]>
                   (<[lit "train.de" := Text [lit "x y x " ++ NEWLINE]]> ∅)) 0 in
  files (final (apply_bpe_with_vocab_filter (λ l, l) (lit "train.de")
                  (lit "train.bpe.de") (lit "vocab.de") 2) st) !! lit "train.de"
  = Some (Text [lit "x y x " ++ NEWLINE]).
Proof.
  intros st.
  destruct (apply_bpe_with_vocab_filter_writes (λ l, l) (lit "train.de")
              (lit "train.bpe.de") (lit "vocab.de") 2 st
              [lit "x 5" ++ NEWLINE; lit "y 1" ++ NEWLINE]
              [lit "x y x " ++ NEWLINE]
              (<[lit "y" := 1]> (<[lit "x" := 5]> ∅)))
    as (_ & _ & Hframe); [by vm_compute|by vm_compute|by vm_compute|done|].
  rewrite Hframe by done. by vm_compute.
Defined.

(** X15. The filter opens the listing, then the input, then the output:
    when the listing or the input file does not exist it raises
    [FileNotFoundError] for that file and the store is as before, the
    output file being neither created nor emptied. *)
Theorem apply_bpe_with_vocab_filter_missing_file
    (bpe : pystr → pystr) (input_file output_file vocab_path : pystr)
    (threshold : Z) (st : state) :
  (files st !! vocab_path = None →
   apply_bpe_with_vocab_filter bpe input_file output_file vocab_path threshold st
   = (Raise (FileNotFoundError vocab_path), st, [])) ∧
  (∀ vocab_lines,
     files st !! vocab_path = Some (Text vocab_lines) →
     Forall (λ l, well_formed_vocab_line l = true) vocab_lines →
     files st !! input_file = None →
     apply_bpe_with_vocab_filter bpe input_file output_file vocab_path threshold st
     = (Raise (FileNotFoundError input_file), st, [])).
Proof.
  split.
  - intros Hvocab.
    unfold apply_bpe_with_vocab_filter, mbind, M_bind, read_lines.
    by rewrite Hvocab.
  - intros vocab_lines Hvocab Hgood Hin.
    apply (load_vocab_ok_iff ∅) in Hgood as [vocab Hload].
    rewrite (apply_bpe_with_vocab_filter_loaded _ _ _ _ _ _ _ _ Hvocab Hload).
    by rewrite rewrite_file_run, Hin.
Qed.

Lemma apply_bpe_with_vocab_filter_missing_file_witness :
  let st := State (<[lit "vocab.de" := Text [lit "x 5" ++ NEWLINE]]> ∅) 0 in
  apply_bpe_with_vocab_filter (λ l, l) (lit "valid.de") (lit "valid.bpe.de")
    (lit "vocab.de") 2 st
  = (Raise (FileNotFoundError (lit "valid.de")), st, []).
Proof.
  intros st.
  apply (proj2 (apply_bpe_with_vocab_filter_missing_file (λ l, l) (lit "valid.de")
                  (lit "valid.bpe.de") (lit "vocab.de") 2 st)
           [lit "x 5" ++ NEWLINE]); [by vm_compute|by repeat constructor|by vm_compute].
Defined.

(** X16. Filtering a file onto itself loses it: when the output path is
    the input path, the file is emptied before its lines are read, the call
    returns, and the file is left without any line. *)
Theorem apply_bpe_with_vocab_filter_in_place
    (bpe : pystr → pystr) (file_path vocab_path : pystr)
    (threshold : Z) (st : state) (vocab_lines : list pystr) :
  files st !! vocab_path = Some (Text vocab_lines) →
  Forall (λ l, well_formed_vocab_line l = true) vocab_lines →
  is_Some (files st !! file_path) →
  apply_bpe_with_vocab_filter bpe file_path file_path vocab_path threshold st
  = (Ok tt, State (<[file_path := Text []]> (files st)) (next_oid st), []).
Proof.
  intros Hvocab Hgood [file Hfile].
  apply (load_vocab_ok_iff ∅) in Hgood as [vocab Hload].
  rewrite (apply_bpe_with_vocab_filter_loaded _ _ _ _ _ _ _ _ Hvocab Hload).
  by rewrite rewrite_file_run, Hfile, decide_True.
Qed.

Lemma apply_bpe_with_vocab_filter_in_place_witness :
  let st := State (<[lit "vocab.de" := Text [lit "x 5" ++ NEWLINE]]>
                   (<[lit "train.de" := Text [lit "x y" ++ NEWLINE]]> ∅)) 0 in
  files (final (apply_bpe_with_vocab_filter (λ l, l) (lit "train.de") (lit "train.de")
                  (lit "vocab.de") 2) st) !! lit "train.de"
  = Some (Text []).
Proof.
  intros st.
  assert (files st !! lit "vocab.de" = Some (Text [lit "x 5" ++ NEWLINE])) as Hvocab
    by (by vm_compute).
  assert (Forall (λ l, well_formed_vocab_line l = true) [lit "x 5" ++ NEWLINE]) as Hgood
    by (by repeat constructor).
  assert (is_Some (files st !! lit "train.de")) as Hfile
    by (exists (Text [lit "x y" ++ NEWLINE]); by vm_compute).
  unfold final.
  rewrite (apply_bpe_with_vocab_filter_in_place (λ l, l) (lit "train.de")
             (lit "vocab.de") 2 st [lit "x 5" ++ NEWLINE] Hvocab Hgood Hfile).
  apply lookup_insert_eq.
Defined.

(** ** [apply_bpe_to_data] *)

(** X17. [apply_bpe_to_data] of [BPE_preprocess.py] writes, for an input
    file other than the output, one line per input line in the same order:
    the segmentation of the line without its trailing whitespace, closed by
    a line terminator; no other file is changed. When the input file does
    not exist it raises and the store is as before. When the output path is
    the input path the file is left empty. *)
Theorem BPE_preprocess_apply_bpe_to_data_run
    (bpe : pystr → pystr) (input_file output_file : pystr) (st : state) :
  (∀ lines, files st !! input_file = Some (Text lines) →
     input_file ≠ output_file →
     BPE_preprocess.apply_bpe_to_data bpe input_file output_file st =
     (Ok tt,
      State (<[output_file := Text ((λ line, bpe (str_rstrip line) ++ NEWLINE) <$> lines)]>
               (files st)) (next_oid st), [])) ∧
  (files st !! input_file = None →
     BPE_preprocess.apply_bpe_to_data bpe input_file output_file st =
     (Raise (FileNotFoundError input_file), st, [])) ∧
  (is_Some (files st !! input_file) → input_file = output_file →
     BPE_preprocess.apply_bpe_to_data bpe input_file output_file st =
     (Ok tt, State (<[output_file := Text []]> (files st)) (next_oid st), [])).
Proof.
  unfold BPE_preprocess.apply_bpe_to_data. rewrite rewrite_file_run. split_and!.
  - intros lines Hin Hne. by rewrite Hin, decide_False.
  - by intros ->.
  - intros [file ->] Heq. by rewrite decide_True.
Qed.

Lemma BPE_preprocess_apply_bpe_to_data_run_witness :
  let st := State (<[lit "raw/train.de" := Text [lit "low  " ++ NEWLINE; NEWLINE]]> ∅) 0 in
  files (final (BPE_preprocess.apply_bpe_to_data (λ l, l ++ lit "@@")
                  (lit "raw/train.de") (lit "data-bin/train.bpe.de")) st)
    !! lit "data-bin/train.bpe.de"
  = Some (Text [lit "low@@" ++ NEWLINE; lit "@@" ++ NEWLINE]).
Proof.
  intros st. unfold final.
  rewrite (proj1 (BPE_preprocess_apply_bpe_to_data_run (λ l, l ++ lit "@@")
                    (lit "raw/train.de") (lit "data-bin/train.bpe.de") st)
             [lit "low  " ++ NEWLINE; NEWLINE]); [|apply lookup_insert_eq|done].
  simpl. rewrite lookup_insert_eq. reflexivity.
Defined.

(** X18. [apply_bpe_to_data] of [BPEPreprocess.py] builds the segmenter
    before it opens the data files: when the file of merge rules does not
    exist, or the constructor rejects its lines, the call raises and the
    store is as before, whatever the data files are. With a segmenter built
    it behaves as the function of the other script: one rewritten line per
    input line, [FileNotFoundError] without any write for a missing input,
    and an emptied file when output and input coincide. *)
Theorem BPEPreprocess_apply_bpe_to_data_run
    (BPE : list pystr → result (pystr → pystr))
    (bpe_codes_path input_file output_file : pystr) (st : state) :
  (files st !! bpe_codes_path = None →
     BPEPreprocess.apply_bpe_to_data BPE bpe_codes_path input_file output_file st =
     (Raise (FileNotFoundError bpe_codes_path), st, [])) ∧
  (∀ codes e, files st !! bpe_codes_path = Some (Text codes) → BPE codes = Raise e →
     BPEPreprocess.apply_bpe_to_data BPE bpe_codes_path input_file output_file st =
     (Raise e, st, [])) ∧
  (∀ codes bpe, files st !! bpe_codes_path = Some (Text codes) → BPE codes = Ok bpe →
     BPEPreprocess.apply_bpe_to_data BPE bpe_codes_path input_file output_file st =
     BPE_preprocess.apply_bpe_to_data bpe input_file output_file st).
Proof.
  unfold BPEPreprocess.apply_bpe_to_data, BPE_preprocess.apply_bpe_to_data.
  split_and!.
  - intros Hcodes. unfold mbind at 1, M_bind at 1, read_lines at 1. by rewrite Hcodes.
  - intros codes e Hcodes HBPE.
    unfold mbind at 1 2, M_bind at 1 2, read_lines at 1, lift_result.
    by rewrite Hcodes, HBPE.
  - intros codes bpe Hcodes HBPE.
    unfold mbind at 1 2, M_bind at 1 2, read_lines at 1, lift_result.
    rewrite Hcodes, HBPE.
    by destruct ((open_read input_file ;; _) st) as [[r st'] evs].
Qed.

Lemma BPEPreprocess_apply_bpe_to_data_run_witness :
  let st := State (<[lit "raw/train.de" := Text [lit "low" ++ NEWLINE]]> ∅) 0 in
  BPEPreprocess.apply_bpe_to_data (λ _, Ok (λ l, l)) (lit "data-bin/bpe.codes.de")
    (lit "raw/train.de") (lit "data-bin/train.bpe.de") st
  = (Raise (FileNotFoundError (lit "data-bin/bpe.codes.de")), st, []).
Proof.
  intros st.
  apply (proj1 (BPEPreprocess_apply_bpe_to_data_run (λ _, Ok (λ l, l))
                  (lit "data-bin/bpe.codes.de") (lit "raw/train.de")
                  (lit "data-bin/train.bpe.de") st)).
  by vm_compute.
Defined.

(** ** The thresholds of [finalize] *)

Lemma emits_weaken {A} (P Q : event → Prop) (c : M A) :
  emits P c → (∀ ev, P ev → Q ev) → emits Q c.
Proof. intros Hc HPQ st. eapply Forall_impl; [apply Hc|done]. Qed.

Lemma emits_for_each_elem {A} P (l : list A) (body : A → M unit) :
  (∀ x, x ∈ l → emits P (body x)) → emits P (for_each l body).
Proof.
  induction l as [|x l IH]; intros Hbody; simpl.
  - by apply emits_silent.
  - apply emits_bind; [apply Hbody; by left|]. intros _.
    apply IH. intros y Hy. apply Hbody. by right.
Qed.

(** X19. Every [finalize] of [BPE_preprocess.main] is called with the
    threshold and size cap of the source language, or with those of the
    target language, the latter only when the target language differs from
    the source language: when both options name the same language, the
    target options are never used. *)
Theorem BPE_preprocess_main_thresholds
    (segment : segmentation) (a : args) (st : state) :
  Forall (finalize_uses a) (trace (BPE_preprocess.main segment a) st).
Proof.
  revert st. change (emits (finalize_uses a) (BPE_preprocess.main segment a)).
  assert (∀ ev, not_finalize ev → finalize_uses a ev) as Hweak.
  { by intros []. }
  unfold BPE_preprocess.main. apply emits_bind.
  { apply emits_silent. intros st. unfold trace, run_segmentation.
    by destruct (segment a (files st)). }
  intros _. apply emits_for_each_elem. intros lang Hlang.
  apply emits_bind.
  { eapply emits_weaken; [apply build_bpe_dictionary_not_finalize|done]. }
  intros d. apply emits_bind.
  { unfold finalize. apply emits_bind; [|intros _; by apply emits_silent].
    apply emits_emit. simpl.
    case_bool_decide as Hsrc; [by left|right].
    apply elem_of_cons in Hlang as [->|Hlang]; [done|].
    apply list_elem_of_singleton in Hlang as ->. done. }
  intros d'. apply emits_bind.
  { unfold save. apply emits_bind; [by apply emits_emit|]. intros _.
    by apply emits_silent. }
  intros _. apply emits_for_each. intros split.
  eapply emits_weaken; [apply make_binary_dataset_not_finalize|done].
Qed.

(** ** Dictionaries are saved before they are used *)

Lemma save_monitor_app s tr1 tr2 :
  save_monitor s (tr1 ++ tr2) =
  match save_monitor s tr1 with
  | Some s' => save_monitor s' tr2
  | None => None
  end.
Proof.
  revert s. induction tr1 as [|ev tr1 IH]; intros s; simpl; [done|].
  by destruct (save_step s ev).
Qed.

Lemma save_monitor_elem s tr s' d :
  save_monitor s tr = Some s' → d ∈ s' →
  d ∈ s ∨ ∃ path, Call_save d path ∈ tr.
Proof.
  revert s. induction tr as [|ev tr IH]; intros s Hmon Hd; simpl in Hmon.
  - injection Hmon as <-. by left.
  - destruct (save_step s ev) as [s1|] eqn:Hstep; [|done].
    destruct (IH s1 Hmon Hd) as [Hd1|[path Hpath]].
    + destruct ev as [d0|d0 w|d0 thr nw|d0 p|d0 i o|i ns nt pc]; simpl in Hstep;
        try (injection Hstep as <-; by left).
      * injection Hstep as <-. apply elem_of_union in Hd1 as [Hd1|Hd1]; [|by left].
        apply elem_of_singleton in Hd1 as ->. right. exists p. by left.
      * destruct (decide (d0 ∈ s)); [|done]. injection Hstep as <-. by left.
    + right. exists path. by right.
Qed.

Lemma save_monitor_sound tr s :
  save_monitor ∅ tr = Some s → saved_before_binarized tr.
Proof.
  intros Hmon pre post d input_file output_file ->.
  rewrite save_monitor_app in Hmon.
  destruct (save_monitor ∅ pre) as [s1|] eqn:Hpre; [|done].
  simpl in Hmon. destruct (decide (d ∈ s1)) as [Hd|]; [|done].
  destruct (save_monitor_elem _ _ _ _ Hpre Hd) as [Hd0|Hsaved]; [|done].
  by apply not_elem_of_empty in Hd0.
Qed.

Lemma tracked_ret {A} (a : A) st s (Q : A → gset nat → Prop) :
  Q a s → tracked (mret a) st s Q.
Proof. intros HQ. exists s. split; [done|]. intros a' Ha. by injection Ha as <-. Qed.

Lemma tracked_bind {A B} (c : M A) (k : A → M B) st s
    (Q1 : A → gset nat → Prop) (Q2 : B → gset nat → Prop) :
  tracked c st s Q1 →
  (∀ a st' s', Q1 a s' → tracked (k a) st' s' Q2) →
  tracked (c ≫= k) st s Q2.
Proof.
  intros (s1 & Hmon & HQ1) Hk.
  unfold tracked, trace, final, outcome, mbind, M_bind in *.
  destruct (c st) as [[[a|e] st1] evs1]; simpl in *.
  - destruct (Hk a st1 s1 (HQ1 a eq_refl)) as (s2 & Hmon2 & HQ2).
    destruct (k a st1) as [[r2 st2] evs2]; simpl in *.
    exists s2. by rewrite save_monitor_app, Hmon.
  - exists s1. done.
Qed.

Lemma tracked_weaken {A} (c : M A) st s (Q Q' : A → gset nat → Prop) :
  tracked c st s Q → (∀ a s', Q a s' → Q' a s') → tracked c st s Q'.
Proof. intros (s1 & ? & HQ) Himp. exists s1. split; [done|]. auto. Qed.

Lemma tracked_for_each {A} (l : list A) (body : A → M unit)
    (I : gset nat → Prop) st s :
  (∀ x st s, I s → tracked (body x) st s (λ _, I)) →
  I s → tracked (for_each l body) st s (λ _, I).
Proof.
  intros Hbody. revert st s. induction l as [|x l IH]; intros st s HI; simpl.
  - by apply tracked_ret.
  - eapply tracked_bind; [by apply Hbody|]. intros [] st' s' HI'. by apply IH.
Qed.

(** The events the second monitor ignores. *)
Lemma tracked_neutral {A} (c : M A) st s :
  Forall (λ ev, ∀ s, save_step s ev = Some s) (trace c st) →
  tracked c st s (λ _ s', s' = s).
Proof.
  intros Hneutral. exists s. split; [|done].
  induction Hneutral as [|ev tr Hev _ IH]; [done|]. simpl. by rewrite Hev.
Qed.

Lemma tracked_emit ev st s s1 :
  save_step s ev = Some s1 → tracked (emit ev) st s (λ _ s', s' = s1).
Proof.
  intros Hstep. exists s1. unfold trace, emit. simpl. by rewrite Hstep.
Qed.

Lemma tracked_save d path st s :
  tracked (save d path) st s (λ _ s', oid d ∈ s').
Proof.
  exists ({[oid d]} ∪ s). split; [done|]. intros _ _. set_solver.
Qed.

Lemma tracked_make_binary_dataset quiet input_file output_file d tokenize append_eos st s :
  oid d ∈ s →
  tracked (make_binary_dataset quiet input_file output_file d tokenize append_eos)
    st s (λ _ s', s' = s).
Proof.
  intros Hd. unfold make_binary_dataset.
  eapply tracked_bind.
  { apply (tracked_emit _ _ s s). simpl. by rewrite decide_True. }
  intros [] st1 s1 ->. simpl.
  eapply tracked_bind; [apply tracked_neutral|].
  { unfold trace, read_lines. by destruct (files st1 !! input_file) as [[]|]. }
  intros lines st2 s2 ->. simpl.
  eapply tracked_bind; [by apply tracked_neutral|].
  intros [] st3 s3 ->. simpl.
  destruct quiet; [by apply tracked_ret|].
  eapply tracked_bind; [by apply tracked_neutral|].
  intros pct st4 s4 ->. simpl.
  apply tracked_neutral. by repeat constructor.
Qed.

Lemma tracked_build_bpe_dictionary path st s :
  tracked (build_bpe_dictionary path) st s (λ _ s', s' = s).
Proof.
  apply tracked_neutral.
  assert (emits (λ ev, ∀ s, save_step s ev = Some s) (build_bpe_dictionary path))
    as Hemits; [|apply Hemits].
  unfold build_bpe_dictionary. apply emits_bind.
  { intros st0. by repeat constructor. }
  intros d. apply emits_bind; [apply emits_read_lines|].
  intros lines. apply emits_for_fold. intros acc line.
  apply emits_for_fold. intros acc' w. unfold add_word.
  apply emits_bind; [by apply emits_emit|]. intros _. by apply emits_silent.
Qed.

(** X20. In every run of either script, completed or interrupted, a
    dictionary that is handed to [make_binary_dataset] has been saved
    before: the dictionary file of a language is written before any split
    of that language is binarized. *)
Theorem main_saves_before_binarizing
    (segment : segmentation) (a : args) (st : state) :
  saved_before_binarized (trace (BPE_preprocess.main segment a) st) ∧
  saved_before_binarized (trace (BPEPreprocess.main segment a) st).
Proof.
  assert (tracked (run_segmentation segment a) st ∅ (λ _ s', s' = ∅)) as Hseg.
  { apply tracked_neutral. unfold trace, run_segmentation.
    by destruct (segment a (files st)). }
  split.
  - assert (tracked (BPE_preprocess.main segment a) st ∅ (λ _ _, True))
      as (s & Hmon & _); [|by eapply save_monitor_sound].
    unfold BPE_preprocess.main.
    eapply tracked_bind; [exact Hseg|]. intros [] st1 s1 _.
    apply (tracked_for_each _ _ (λ _, True)); [|done].
    intros lang st2 s2 _.
    eapply tracked_bind; [apply tracked_build_bpe_dictionary|].
    intros d st3 s3 _.
    eapply tracked_bind.
    { apply tracked_neutral. unfold trace, finalize, mbind, M_bind, emit, lift_result.
      simpl. by repeat constructor. }
    intros d' st4 s4 _.
    eapply tracked_bind; [apply tracked_save|].
    intros [] st5 s5 Hd'.
    eapply tracked_weaken;
      [apply (tracked_for_each _ _ (λ s', oid d' ∈ s')); [|done]|done].
    intros split st6 s6 Hd6.
    eapply tracked_weaken; [by apply tracked_make_binary_dataset|].
    by intros [] ? ->.
  - assert (tracked (BPEPreprocess.main segment a) st ∅ (λ _ _, True))
      as (s & Hmon & _); [|by eapply save_monitor_sound].
    unfold BPEPreprocess.main.
    eapply tracked_bind; [exact Hseg|]. intros [] st1 s1 _.
    apply (tracked_for_each _ _ (λ _, True)); [|done].
    intros lang st2 s2 _.
    eapply tracked_bind; [apply tracked_build_bpe_dictionary|].
    intros d st3 s3 _.
    eapply tracked_bind; [apply tracked_save|].
    intros [] st5 s5 Hd'.
    eapply tracked_weaken;
      [apply (tracked_for_each _ _ (λ s', oid d ∈ s')); [|done]|done].
    intros split st6 s6 Hd6.
    eapply tracked_weaken; [by apply tracked_make_binary_dataset|].
    by intros [] ? ->.
Qed.
